(** * The Cream supernet sampler and the dataset check of its evaluation driver

    A shallow embedding of
    - [nni/nas/pytorch/cream/mutator.py]: [CreamSupernetTrainingMutator]
      ([__init__], [get_prob], [sample_search], [sample_final]);
    - [examples/nas/cream/test.py]: the dataset stage of [main].

    Python integers are [Z], Python floats are modelled by exact rationals
    [Q], tuples and lists by [list], [None] by [option].  A method body is a
    tree of the effects it performs (reading an attribute of [self], calling
    [np.random.choice], raising); the tree is given two meanings: an
    operational one, which threads the object and NumPy's process-wide
    generator, and a probabilistic one, which computes the finite
    distribution of the outcome. *)

From Stdlib Require Import List ZArith QArith Qabs Ascii String Bool Lia.
From Stdlib Require Import Permutation.
Import ListNotations.
Local Open Scope Z_scope.

(** ** Python outcomes *)

Module Py.

Inductive exn : Type :=
| ValueError (msg : string)
| TypeError (msg : string).

Inductive res (A : Type) : Type :=
| Ok (a : A)
| Raise (e : exn).
Arguments Ok {A} a.
Arguments Raise {A} e.

Definition is_ok {A} (r : res A) : bool :=
  match r with Ok _ => true | Raise _ => false end.

Definition res_map {A B} (h : A -> B) (r : res A) : res B :=
  match r with Ok a => Ok (h a) | Raise e => Raise e end.

(** The truth value of a tuple: it is true unless it is empty. *)
Definition tuple_bool {A} (t : list A) : bool :=
  match t with [] => false | _ :: _ => true end.

End Py.
Import Py.

(** ** NumPy: [np.random.choice(a, size=None, replace=True, p=None)]

    The primitive is external to the repository. Its parameters are, in
    this order, the population [a] (here an integer, for [range(a)]), the
    number of samples [size], the flag [replace], tested for truth, and the
    weights [p]. The calls of the repository pass two or three positional
    arguments, so [p] keeps its default [None] and the samples are uniform:
    [randint(0, a, size)] with replacement, and the first [size] entries of
    [permutation(a)] without. The indices are [int64]: a population above
    [2^63] and an array of [2^60] elements or more are refused. Memory is
    taken to be unbounded: no [MemoryError] is modelled. *)

Module Numpy.

Definition Qsum (l : list Q) : Q := fold_right Qplus 0%Q l.

(** [np.iinfo(np.int64).max + 1]: the largest [high] that
    [randint(0, high)] accepts. *)
Definition int64_high : Z := 2 ^ 63.

(** The largest number of [int64] elements of an array: its size in bytes
    has to be below [2^63]. *)
Definition max_elements : Z := 2 ^ 60 - 1.

(** The checks of a call, those of the primitive and those of the
    [randint], [permutation] and array allocation under it; [None] when the
    call goes on to sample. *)
Definition choice_check (a size : Z) (replace : bool) : option exn :=
  if (a <=? 0) && negb (size =? 0) then
    Some (ValueError "a must be greater than 0 unless no samples are taken")
  else if replace then
    if size <? 0 then
      Some (ValueError "negative dimensions are not allowed")
    else if max_elements <? size then
      Some (ValueError "Maximum allowed dimension exceeded")
    else if negb (size =? 0) && (int64_high <? a) then
      Some (ValueError "high is out of bounds for int64")
    else None
  else
    if a <? size then
      Some (ValueError
              "Cannot take a larger sample than population when 'replace=False'")
    else if size <? 0 then
      Some (ValueError "negative dimensions are not allowed")
    else if max_elements <? a then
      Some (ValueError "Maximum allowed size exceeded")
    else None.

(** *** The process-wide generator

    The state of the generator is abstracted to the sequence of numbers
    its bounded draws are still to be derived from, one number for each
    draw. How many raw 32-bit outputs the generator spends on a draw (it
    rejects the outputs that fall outside the bound) is not modelled. *)
Definition rng : Type := nat -> Z.

Definition rng_next (g : rng) : Z * rng := (g O, fun n => g (S n)).

(** [randint(0, a)] for [0 < a]: an integer of [[0, a)], derived from the
    next number of the sequence. *)
Definition randint (a : Z) (g : rng) : Z * rng :=
  let (x, g') := rng_next g in (x mod a, g').

(** [random_interval(max)]: an integer of [[0, max]]. *)
Definition random_interval (max : Z) (g : rng) : Z * rng :=
  randint (max + 1) g.

(** [n] successive draws. *)
Fixpoint draw_n {A} (draw : rng -> A * rng) (n : nat) (g : rng)
  : list A * rng :=
  match n with
  | O => ([], g)
  | S n' =>
      let (x, g1) := draw g in
      let (xs, g2) := draw_n draw n' g1 in
      (x :: xs, g2)
  end.

(** [np.arange(n)] *)
Definition arange (n : nat) : list Z := map Z.of_nat (seq 0 n).

(** [x[i] = v], within the bounds of [x]. *)
Fixpoint update (x : list Z) (i : nat) (v : Z) : list Z :=
  match x, i with
  | [], _ => []
  | _ :: t, O => v :: t
  | h :: t, S i' => h :: update t i' v
  end.

(** [x[i], x[j] = x[j], x[i]], within the bounds of [x]. *)
Definition swap (x : list Z) (i j : nat) : list Z :=
  match nth_error x i, nth_error x j with
  | Some xi, Some xj => update (update x i xj) j xi
  | _, _ => x
  end.

(** [shuffle(x)]: [for i in reversed(range(1, n)): j = random_interval(i);
    x[i], x[j] = x[j], x[i]]; [i] is the index the loop is at. *)
Fixpoint shuffle_from (i : nat) (x : list Z) (g : rng) : list Z * rng :=
  match i with
  | O => (x, g)
  | S i' =>
      let (j, g') := random_interval (Z.of_nat i) g in
      shuffle_from i' (swap x i (Z.to_nat j)) g'
  end.

(** [permutation(n)] *)
Definition permutation (n : nat) (g : rng) : list Z * rng :=
  shuffle_from (n - 1) (arange n) g.

Definition random_choice (a size : Z) (replace : bool) (g : rng)
  : res (list Z) * rng :=
  match choice_check a size replace with
  | Some e => (Raise e, g)
  | None =>
      let (idx, g') :=
        if replace then draw_n (randint a) (Z.to_nat size) g
        else
          let (perm, g1) := permutation (Z.to_nat a) g in
          (firstn (Z.to_nat size) perm, g1)
      in
      (Ok idx, g')
  end.

(** *** Finite distributions: outcomes with their weights *)
Definition dist (A : Type) : Type := list (A * Q).

Definition dret {A} (x : A) : dist A := [(x, 1%Q)].

Definition scale {A} (w : Q) (d : dist A) : dist A :=
  map (fun bv => (fst bv, (w * snd bv)%Q)) d.

Definition dbind {A B} (d : dist A) (f : A -> dist B) : dist B :=
  flat_map (fun aw => scale (snd aw) (f (fst aw))) d.

Definition mass {A} (d : dist A) : Q := Qsum (map snd d).

(** The probability of the event [E]. *)
Definition pr {A} (E : A -> bool) (d : dist A) : Q :=
  mass (filter (fun aw => E (fst aw)) d).

(** [n] independent draws. *)
Fixpoint iid {A} (d : dist A) (n : nat) : dist (list A) :=
  match n with
  | O => dret []
  | S n' => dbind d (fun x => dbind (iid d n') (fun xs => dret (x :: xs)))
  end.

(** [i, i+1, ...] paired with the entries of [ws]. *)
Fixpoint indexed_from (i : Z) (ws : list Q) : dist Z :=
  match ws with
  | [] => []
  | w :: ws' => (i, w) :: indexed_from (i + 1) ws'
  end.

(** The law of [randint(0, a)]: uniform on [{0, ..., a-1}]. *)
Definition randint_dist (a : Z) : dist Z :=
  indexed_from 0 (repeat (1 / inject_Z a)%Q (Z.to_nat a)).

(** The law of [shuffle_from]. *)
Fixpoint shuffle_dist_from (i : nat) (x : list Z) : dist (list Z) :=
  match i with
  | O => dret x
  | S i' =>
      dbind (randint_dist (Z.of_nat i + 1))
        (fun j => shuffle_dist_from i' (swap x i (Z.to_nat j)))
  end.

Definition random_choice_dist (a size : Z) (replace : bool)
  : dist (res (list Z)) :=
  match choice_check a size replace with
  | Some e => dret (Raise e)
  | None =>
      if replace then
        dbind (iid (randint_dist a) (Z.to_nat size)) (fun l => dret (Ok l))
      else
        dbind (shuffle_dist_from (Z.to_nat a - 1) (arange (Z.to_nat a)))
          (fun perm => dret (Ok (firstn (Z.to_nat size) perm)))
  end.

End Numpy.

(** ** [CreamSupernetTrainingMutator] *)

Module Cream.
Import Numpy.

(** The attributes [__init__] sets on the object. *)
Record mutator : Type := Mutator {
  how_to_prob : string;
  pre_prob : option (list Q);
  CHOICE_NUM : Z;
  sta_num : list Z
}.

(** A method body: the effects it performs, in order. *)
Inductive py (A : Type) : Type :=
| Ret (a : A)
| Throw (e : exn)
| GetSelf (k : mutator -> py A)
| SetSelf (s : mutator) (k : py A)
| RandomChoice (a size : Z) (replace : bool) (k : list Z -> py A).
Arguments Ret {A} a.
Arguments Throw {A} e.
Arguments GetSelf {A} k.
Arguments SetSelf {A} s k.
Arguments RandomChoice {A} a size replace k.

Fixpoint bind {A B} (m : py A) (f : A -> py B) : py B :=
  match m with
  | Ret a => f a
  | Throw e => Throw e
  | GetSelf k => GetSelf (fun s => bind (k s) f)
  | SetSelf s k => SetSelf s (bind k f)
  | RandomChoice a size replace k =>
      RandomChoice a size replace (fun l => bind (k l) f)
  end.

Notation "x <- m ;; k" := (bind m (fun x => k))
  (at level 61, m at next level, right associativity).

Definition getattr {A} (field : mutator -> A) : py A :=
  GetSelf (fun s => Ret (field s)).

(** [self.how_to_prob = v] and the three other assignments. *)
Definition set_how_to_prob (v : string) : py unit :=
  GetSelf (fun s =>
    SetSelf (Mutator v (pre_prob s) (CHOICE_NUM s) (sta_num s)) (Ret tt)).

Definition set_pre_prob (v : option (list Q)) : py unit :=
  GetSelf (fun s =>
    SetSelf (Mutator (how_to_prob s) v (CHOICE_NUM s) (sta_num s)) (Ret tt)).

Definition set_CHOICE_NUM (v : Z) : py unit :=
  GetSelf (fun s =>
    SetSelf (Mutator (how_to_prob s) (pre_prob s) v (sta_num s)) (Ret tt)).

Definition set_sta_num (v : list Z) : py unit :=
  GetSelf (fun s =>
    SetSelf (Mutator (how_to_prob s) (pre_prob s) (CHOICE_NUM s) v)
            (Ret tt)).

(** [np.random.choice(a, size, replace).tolist()] *)
Definition np_random_choice (a size : Z) (replace : bool) : py (list Z) :=
  RandomChoice a size replace Ret.

(** A list comprehension [[body(item) for item in l]]. *)
Fixpoint comprehension {A B} (body : A -> py B) (l : list A)
  : py (list B) :=
  match l with
  | [] => Ret []
  | item :: rest =>
      x <- body item ;;
      xs <- comprehension body rest ;;
      Ret (x :: xs)
  end.

(** [get_prob]: the result is [None] or the attribute [pre_prob]. *)
Definition get_prob : py (option (list Q)) :=
  how <- getattr how_to_prob ;;
  if String.eqb how "even" then Ret None
  else if String.eqb how "pre_prob" then getattr pre_prob
  else Throw (ValueError "prob method not supported").

Definition candidate : Type := list (list Z).

(** The body of either comprehension of [sample_search], with the value
    the primitive receives for [replace]. *)
Definition draw_stage (replace : bool) (item : Z) : py (list Z) :=
  n <- getattr CHOICE_NUM ;; np_random_choice n item replace.

(** What [replace] is for the resolved [prob]: its default [True] in
    [np.random.choice(self.CHOICE_NUM, item)], and [prob] itself, the third
    positional argument, in [np.random.choice(self.CHOICE_NUM, item,
    prob)]. *)
Definition replace_of (prob : option (list Q)) : bool :=
  match prob with
  | None => true
  | Some pv => tuple_bool pv
  end.

(** [sample_search]. In the second comprehension [prob] is the third
    positional argument of the primitive, that is its [replace]. *)
Definition sample_search : py candidate :=
  prob <- get_prob ;;
  items <- getattr sta_num ;;
  get_random_cand <-
    match prob with
    | None => comprehension (draw_stage true) items
    | Some pv => comprehension (draw_stage (tuple_bool pv)) items
    end ;;
  Ret ([0] :: get_random_cand ++ [[0]]).

Definition sample_final : py candidate := sample_search.

(** *** Operational meaning: the object and the generator are threaded *)
Record world : Type := World {
  self : mutator;
  np_random : rng
}.

Fixpoint run {A} (m : py A) (w : world) : res A * world :=
  match m with
  | Ret a => (Ok a, w)
  | Throw e => (Raise e, w)
  | GetSelf k => run (k (self w)) w
  | SetSelf s k => run k (World s (np_random w))
  | RandomChoice a size replace k =>
      match random_choice a size replace (np_random w) with
      | (Ok l, g) => run (k l) (World (self w) g)
      | (Raise e, g) => (Raise e, World (self w) g)
      end
  end.

(** *** Probabilistic meaning: the law of the outcome *)

(** An exception ends the computation. *)
Definition on_ok {A B} (f : A -> dist (res B)) (r : res A)
  : dist (res B) :=
  match r with
  | Ok a => f a
  | Raise e => dret (Raise e)
  end.

Fixpoint law {A} (m : py A) (s : mutator) : dist (res A) :=
  match m with
  | Ret a => dret (Ok a)
  | Throw e => dret (Raise e)
  | GetSelf k => law (k s) s
  | SetSelf s' k => law k s'
  | RandomChoice a size replace k =>
      dbind (random_choice_dist a size replace)
        (on_ok (fun l => law (k l) s))
  end.

(** The arguments of every call of the primitive satisfy [P]. *)
Fixpoint every_call {A} (P : Z -> Z -> bool -> Prop)
    (m : py A) (s : mutator) : Prop :=
  match m with
  | Ret _ => True
  | Throw _ => True
  | GetSelf k => every_call P (k s) s
  | SetSelf s' k => every_call P k s'
  | RandomChoice a size replace k =>
      P a size replace /\ forall l, every_call P (k l) s
  end.

(** The body assigns to no attribute of [self]. *)
Fixpoint read_only {A} (m : py A) : Prop :=
  match m with
  | Ret _ => True
  | Throw _ => True
  | GetSelf k => forall s, read_only (k s)
  | SetSelf _ _ => False
  | RandomChoice _ _ _ k => forall l, read_only (k l)
  end.

(** *** Construction

    [super().__init__(model)] belongs to the toolkit's [RandomMutator] and
    only sees [model]; its outcome is the argument [base]. *)
Definition __init__ {Base} (base : res Base)
    (how : string) (pre : option (list Q)) (choice_num : Z)
    (stages : list Z) : res mutator :=
  match base with
  | Ok _ => Ok (Mutator how pre choice_num stages)
  | Raise e => Raise e
  end.

(** The four assignments of [__init__], as effects on the object. *)
Definition assign_attributes (how : string) (pre : option (list Q))
    (choice_num : Z) (stages : list Z) : py unit :=
  _ <- set_how_to_prob how ;;
  _ <- set_pre_prob pre ;;
  _ <- set_CHOICE_NUM choice_num ;;
  set_sta_num stages.

(** The defaults of the signature of [__init__]. *)
Definition default_pre_prob : list Q :=
  [5 # 100; 5 # 100; 2 # 10; 4 # 10; 2 # 10; 1 # 10]%Q.

Definition default_mutator : mutator :=
  Mutator "even" (Some default_pre_prob) 6 [4; 4; 4; 4; 4].

(** The event [entry j is k] on a list of indices. *)
Definition nth_is (j : nat) (k : Z) (l : list Z) : bool :=
  match nth_error l j with
  | Some v => v =? k
  | None => false
  end.

(** The event [entry j of stage i is k] on the outcome of a
    comprehension. *)
Definition stage_slot_is (i j : nat) (k : Z) (r : res (list (list Z)))
  : bool :=
  match r with
  | Ok c =>
      match nth_error c i with
      | Some stage => nth_is j k stage
      | None => false
      end
  | Raise _ => false
  end.

(** The event [slot j of interior stage i holds k] on an outcome of
    [sample_search]; interior stage [i] is stage [i + 1] of the
    candidate. *)
Definition slot_is (i j : nat) (k : Z) (r : res candidate) : bool :=
  stage_slot_is (S i) j k r.

End Cream.
Import Numpy Cream.

(** ** The dataset stage of [main] in [examples/nas/cream/test.py] *)

Module Driver.

(** What a path resolves to. *)
Inductive node : Type := File | Dir.

Definition filesystem : Type := string -> option node.

Definition os_path_exists (fs : filesystem) (path : string) : bool :=
  match fs path with Some _ => true | None => false end.

Definition os_path_isdir (fs : filesystem) (path : string) : bool :=
  match fs path with Some Dir => true | _ => false end.

Fixpoint endswith_sep (s : string) : bool :=
  match s with
  | EmptyString => false
  | String c EmptyString => Ascii.eqb c "/"%char
  | String _ rest => endswith_sep rest
  end.

(** [os.path.join(a, b)] for a [b] that does not start with the
    separator. *)
Definition os_path_join (a b : string) : string :=
  (if (String.eqb a "" || endswith_sep a)%bool then a ++ b
  else a ++ "/" ++ b)%string.

(** The command-line arguments the stage reads. *)
Record args : Type := Args {
  tiny : bool;
  data : option string;
  batch_size : Z
}.

(** What the stage does to the outside, in order. *)
Inductive event : Type :=
| LoggerError (msg : string)
| GetNewImagenet (root : option string) (batch : Z)
| LoadDataset (root : string)
| CreateLoader (batch : Z).

Inductive outcome : Type :=
| Exit (code : Z)
| Uncaught (e : exn)
| Proceed.

Definition is_load (e : event) : bool :=
  match e with
  | LoggerError _ => false
  | _ => true
  end.

Definition dataset_stage (fs : filesystem) (a : args)
  : list event * outcome :=
  if tiny a then
    ([GetNewImagenet (data a) (batch_size a)], Proceed)
  else
    match data a with
    | None =>
        ([], Uncaught
               (TypeError
                  "expected str, bytes or os.PathLike object, not NoneType"))
    | Some d =>
        let train_dir := os_path_join d "train" in
        if negb (os_path_exists fs train_dir) then
          ([LoggerError
              ("Training folder does not exist at: " ++ train_dir)%string],
           Exit 1)
        else
          let eval_dir := os_path_join d "val" in
          if negb (os_path_isdir fs eval_dir) then
            ([LoggerError
                ("Validation folder does not exist at: " ++ eval_dir)%string],
             Exit 1)
          else
            ([LoadDataset eval_dir; CreateLoader (4 * batch_size a)],
             Proceed)
    end.

(** A file system with the given entries and nothing else. *)
Fixpoint fs_of (entries : list (string * node)) : filesystem :=
  fun path =>
    match entries with
    | [] => None
    | (q, n) :: rest => if String.eqb path q then Some n else fs_of rest path
    end.

End Driver.
Import Driver.

(** ** Python strings (ASCII text) *)

Module PyStr.

(** [c.lower()] for an ASCII character. *)
Definition lower_char (c : ascii) : ascii :=
  let n := nat_of_ascii c in
  if (Nat.leb 65 n && Nat.leb n 90)%bool then ascii_of_nat (n + 32) else c.

(** [s.lower()] *)
Fixpoint lower (s : string) : string :=
  match s with
  | EmptyString => EmptyString
  | String c rest => String (lower_char c) (lower rest)
  end.

(** [sub in s] *)
Fixpoint contains (sub s : string) : bool :=
  (String.prefix sub s ||
   match s with
   | EmptyString => false
   | String _ rest => contains sub rest
   end)%bool.

(** [s.endswith(suffix)] *)
Fixpoint endswith (suffix s : string) : bool :=
  (String.eqb suffix s ||
   match s with
   | EmptyString => false
   | String _ rest => endswith suffix rest
   end)%bool.

(** [s.split(sep)[-1]], with [current] the text read since the last
    separator. *)
Fixpoint last_component_from (sep : ascii) (current s : string) : string :=
  match s with
  | EmptyString => current
  | String c rest =>
      if Ascii.eqb c sep then last_component_from sep EmptyString rest
      else last_component_from sep (current ++ String c EmptyString) rest
  end.

Definition last_component (sep : ascii) (s : string) : string :=
  last_component_from sep EmptyString s.

End PyStr.

(** ** [add_weight_decay_supernet] and [create_optimizer_supernet] of
    [examples/nas/cream/test.py] *)

Module Optimizer.
Import PyStr.

(** An entry of [model.named_parameters()]: the name, [param.shape] and
    [param.requires_grad]. *)
Record named_parameter : Type := NamedParameter {
  p_name : string;
  p_shape : list Z;
  requires_grad : bool
}.

(** A parameter group: the dictionary with the keys ['params'],
    ['weight_decay'] and ['lr']. *)
Record param_group : Type := ParamGroup {
  params : list named_parameter;
  group_weight_decay : Q;
  group_lr : Q
}.

(** The command-line arguments the two functions read. *)
Record opt_args : Type := OptArgs {
  opt : string;
  weight_decay : Q;
  lr : Q;
  meta_lr : Q;
  momentum : Q;
  opt_eps : Q
}.

(** The four lists the loop of [add_weight_decay_supernet] appends to. *)
Record buckets : Type := Buckets {
  decay : list named_parameter;
  no_decay : list named_parameter;
  meta_layer_no_decay : list named_parameter;
  meta_layer_decay : list named_parameter
}.

(** [len(param.shape) == 1 or name.endswith(".bias") or name in
    skip_list] *)
Definition exempt (skip_list : list string) (p : named_parameter) : bool :=
  ((List.length (p_shape p) =? 1)%nat
   || endswith ".bias" (p_name p)
   || existsb (String.eqb (p_name p)) skip_list)%bool.

(** ['meta_layer' in name] *)
Definition is_meta (p : named_parameter) : bool := contains "meta_layer" (p_name p).

(** One round of the loop. *)
Definition place (skip_list : list string) (b : buckets) (p : named_parameter)
  : buckets :=
  if negb (requires_grad p) then b
  else if exempt skip_list p then
    if is_meta p then
      Buckets (decay b) (no_decay b) (meta_layer_no_decay b ++ [p])
              (meta_layer_decay b)
    else
      Buckets (decay b) (no_decay b ++ [p]) (meta_layer_no_decay b)
              (meta_layer_decay b)
  else
    if is_meta p then
      Buckets (decay b) (no_decay b) (meta_layer_no_decay b)
              (meta_layer_decay b ++ [p])
    else
      Buckets (decay b ++ [p]) (no_decay b) (meta_layer_no_decay b)
              (meta_layer_decay b).

Definition add_weight_decay_supernet (model : list named_parameter)
    (args : opt_args) (wd : Q) (skip_list : list string)
  : list param_group :=
  let b := fold_left (place skip_list) model (Buckets [] [] [] []) in
  [ ParamGroup (no_decay b) 0 (lr args);
    ParamGroup (decay b) wd (lr args);
    ParamGroup (meta_layer_no_decay b) 0 (meta_lr args);
    ParamGroup (meta_layer_decay b) 0 (meta_lr args) ].

(** What an optimizer is built over: parameter groups, or
    [model.parameters()]. *)
Inductive param_source : Type :=
| Groups (groups : list param_group)
| ModelParameters (ps : list named_parameter).

(** The constructor call [create_optimizer_supernet] ends with. *)
Inductive optimizer : Type :=
| SGD (over : param_source) (sgd_momentum sgd_weight_decay : Q)
      (nesterov : bool)
| Adam (over : param_source) (adam_weight_decay adam_eps : Q).

Inductive error : Type :=
| AssertionError (msg : option string)
| ZeroDivisionError
| BareValueError.

(** The interpreter and the machine: whether [assert] statements are
    executed ([__debug__], false under [python -O]), whether [apex] was
    imported, and [torch.cuda.is_available()]. *)
Record runtime : Type := Runtime {
  debug : bool;
  has_apex : bool;
  cuda_available : bool
}.

(** The truth value of a float: it is true unless it is zero. *)
Definition float_bool (x : Q) : bool := negb (Qeq_bool x 0).

(** ['adamw' in opt_lower or 'radam' in opt_lower] *)
Definition scales_decay (opt_lower : string) : bool :=
  (contains "adamw" opt_lower || contains "radam" opt_lower)%bool.

(** The dispatch on the last component of the name. *)
Definition select (rt : runtime) (args : opt_args) (over : param_source)
    (wd : Q) (name : string) : error + optimizer :=
  if (String.eqb name "sgd" || String.eqb name "nesterov")%bool then
    inr (SGD over (momentum args) wd true)
  else if String.eqb name "momentum" then
    inr (SGD over (momentum args) wd false)
  else if String.eqb name "adam" then
    inr (Adam over wd (opt_eps args))
  else if debug rt then inl (AssertionError None)
  else inl BareValueError.

Definition create_optimizer_supernet (rt : runtime) (args : opt_args)
    (model : list named_parameter) (filter_bias_and_bn : bool)
  : error + optimizer :=
  let opt_lower := lower (opt args) in
  let wd := weight_decay args in
  if (scales_decay opt_lower && Qeq_bool (lr args) 0)%bool then
    inl ZeroDivisionError
  else
    let wd := if scales_decay opt_lower then (wd / lr args)%Q else wd in
    let over :=
      if (float_bool wd && filter_bias_and_bn)%bool
      then Groups (add_weight_decay_supernet model args wd [])
      else ModelParameters model in
    let wd := if (float_bool wd && filter_bias_and_bn)%bool then 0%Q
              else wd in
    if (contains "fused" opt_lower && debug rt
        && negb (has_apex rt && cuda_available rt))%bool then
      inl (AssertionError
             (Some "APEX and CUDA required for fused optimizers"%string))
    else
      select rt args over wd (last_component "_" opt_lower).

(** The parameters an optimizer is built over. *)
Definition over_of (o : optimizer) : param_source :=
  match o with
  | SGD over _ _ _ => over
  | Adam over _ _ => over
  end.

(** The [weight_decay] keyword of the constructor call. *)
Definition default_weight_decay (o : optimizer) : Q :=
  match o with
  | SGD _ _ wd _ => wd
  | Adam _ wd _ => wd
  end.

End Optimizer.

(** ** [accuracy], the nested function of [main] in
    [examples/nas/cream/test.py] *)

Module Metrics.










End Metrics.

(** ** The architecture table of [main] in [examples/nas/cream/test.py] *)

Module Architectures.

(** What [main] binds for a model selection: [arch_list], [arch_def] and
    [args.img_size]. *)
Record architecture : Type := Architecture {
  arch_list : list (list Z);
  arch_def : list (list string);
  img_size : Z
}.

Definition architecture_470 : architecture :=
  Architecture
    [[0];
     [3; 4; 3; 1];
     [3; 2; 3; 0];
     [3; 3; 3; 1];
     [3; 3; 3; 3];
     [3; 3; 3; 3];
     [0]]
    [["ds_r1_k3_s1_e1_c16_se0.25"];
     ["ir_r1_k3_s2_e4_c24_se0.25"; "ir_r1_k3_s1_e4_c24_se0.25"; "ir_r1_k3_s1_e4_c24_se0.25"; "ir_r1_k3_s1_e4_c24_se0.25"];
     ["ir_r1_k5_s2_e4_c40_se0.25"; "ir_r1_k5_s1_e4_c40_se0.25"; "ir_r1_k5_s2_e4_c40_se0.25"; "ir_r1_k5_s2_e4_c40_se0.25"];
     ["ir_r1_k3_s2_e6_c80_se0.25"; "ir_r1_k3_s1_e4_c80_se0.25"; "ir_r1_k3_s1_e4_c80_se0.25"; "ir_r2_k3_s1_e4_c80_se0.25"];
     ["ir_r1_k3_s1_e6_c96_se0.25"; "ir_r1_k3_s1_e6_c96_se0.25"; "ir_r1_k3_s1_e6_c96_se0.25"; "ir_r1_k3_s1_e6_c96_se0.25"];
     ["ir_r1_k5_s2_e6_c192_se0.25"; "ir_r1_k5_s1_e6_c192_se0.25"; "ir_r1_k5_s2_e6_c192_se0.25"; "ir_r1_k5_s2_e6_c192_se0.25"];
     ["cn_r1_k1_s1_c320_se0.25"]]%string
    224.

Definition architecture_42 : architecture :=
  Architecture
    [[0];
     [3];
     [3; 1];
     [3; 1];
     [3; 3; 3];
     [3; 3];
     [0]]
    [["ds_r1_k3_s1_e1_c16_se0.25"];
     ["ir_r1_k3_s2_e4_c24_se0.25"];
     ["ir_r1_k5_s2_e4_c40_se0.25"; "ir_r1_k5_s2_e4_c40_se0.25"];
     ["ir_r1_k3_s2_e6_c80_se0.25"; "ir_r1_k3_s2_e6_c80_se0.25"];
     ["ir_r1_k3_s1_e6_c96_se0.25"; "ir_r1_k3_s1_e6_c96_se0.25"; "ir_r1_k3_s1_e6_c96_se0.25"];
     ["ir_r1_k5_s2_e6_c192_se0.25"; "ir_r1_k5_s2_e6_c192_se0.25"];
     ["cn_r1_k1_s1_c320_se0.25"]]%string
    96.

Definition architecture_14 : architecture :=
  Architecture
    [[0];
     [3];
     [3; 3];
     [3; 3];
     [3];
     [3];
     [0]]
    [["ds_r1_k3_s1_e1_c16_se0.25"];
     ["ir_r1_k3_s2_e4_c24_se0.25"];
     ["ir_r1_k5_s2_e4_c40_se0.25"; "ir_r1_k3_s2_e4_c40_se0.25"];
     ["ir_r1_k3_s2_e6_c80_se0.25"; "ir_r1_k3_s2_e4_c80_se0.25"];
     ["ir_r1_k3_s1_e6_c96_se0.25"];
     ["ir_r1_k5_s2_e6_c192_se0.25"];
     ["cn_r1_k1_s1_c320_se0.25"]]%string
    64.

Definition architecture_112 : architecture :=
  Architecture
    [[0];
     [3];
     [3; 3];
     [3; 3];
     [3; 3; 3];
     [3; 3];
     [0]]
    [["ds_r1_k3_s1_e1_c16_se0.25"];
     ["ir_r1_k3_s2_e4_c24_se0.25"];
     ["ir_r1_k5_s2_e4_c40_se0.25"; "ir_r1_k3_s2_e4_c40_se0.25"];
     ["ir_r1_k3_s2_e6_c80_se0.25"; "ir_r1_k3_s2_e6_c80_se0.25"];
     ["ir_r1_k3_s1_e6_c96_se0.25"; "ir_r1_k3_s1_e6_c96_se0.25"; "ir_r1_k3_s1_e6_c96_se0.25"];
     ["ir_r1_k5_s2_e6_c192_se0.25"; "ir_r1_k5_s2_e6_c192_se0.25"];
     ["cn_r1_k1_s1_c320_se0.25"]]%string
    160.

Definition architecture_285 : architecture :=
  Architecture
    [[0];
     [3];
     [3; 3];
     [3; 1; 3];
     [3; 3; 3; 3];
     [3; 3; 3];
     [0]]
    [["ds_r1_k3_s1_e1_c16_se0.25"];
     ["ir_r1_k3_s2_e4_c24_se0.25"];
     ["ir_r1_k5_s2_e4_c40_se0.25"; "ir_r1_k5_s2_e4_c40_se0.25"];
     ["ir_r1_k3_s2_e6_c80_se0.25"; "ir_r1_k3_s2_e6_c80_se0.25"; "ir_r1_k3_s2_e6_c80_se0.25"];
     ["ir_r1_k3_s1_e6_c96_se0.25"; "ir_r1_k3_s1_e6_c96_se0.25"; "ir_r1_k3_s1_e6_c96_se0.25"; "ir_r1_k3_s1_e6_c96_se0.25"];
     ["ir_r1_k5_s2_e6_c192_se0.25"; "ir_r1_k5_s2_e6_c192_se0.25"; "ir_r1_k5_s2_e6_c192_se0.25"];
     ["cn_r1_k1_s1_c320_se0.25"]]%string
    224.

Definition architecture_600 : architecture :=
  Architecture
    [[0];
     [3; 3; 2; 3; 3];
     [3; 2; 3; 2; 3];
     [3; 2; 3; 2; 3];
     [3; 3; 2; 2; 3; 3];
     [3; 3; 2; 3; 3; 3];
     [0]]
    [["ds_r1_k3_s1_e1_c16_se0.25"];
     ["ir_r1_k3_s2_e4_c24_se0.25"; "ir_r1_k3_s2_e4_c24_se0.25"; "ir_r1_k3_s2_e4_c24_se0.25"; "ir_r1_k3_s2_e4_c24_se0.25"; "ir_r1_k3_s2_e4_c24_se0.25"];
     ["ir_r1_k5_s2_e4_c40_se0.25"; "ir_r1_k5_s2_e4_c40_se0.25"; "ir_r1_k5_s2_e4_c40_se0.25"; "ir_r1_k5_s2_e4_c40_se0.25"; "ir_r1_k5_s2_e4_c40_se0.25"];
     ["ir_r1_k3_s2_e6_c80_se0.25"; "ir_r1_k3_s1_e4_c80_se0.25"; "ir_r1_k3_s1_e4_c80_se0.25"; "ir_r1_k3_s1_e4_c80_se0.25"; "ir_r1_k3_s1_e4_c80_se0.25"];
     ["ir_r1_k3_s1_e6_c96_se0.25"; "ir_r1_k3_s1_e6_c96_se0.25"; "ir_r1_k3_s1_e6_c96_se0.25"; "ir_r1_k3_s1_e6_c96_se0.25"; "ir_r1_k3_s1_e6_c96_se0.25"; "ir_r1_k3_s1_e6_c96_se0.25"];
     ["ir_r1_k5_s2_e6_c192_se0.25"; "ir_r1_k5_s1_e6_c192_se0.25"; "ir_r1_k5_s1_e6_c192_se0.25"; "ir_r1_k5_s1_e6_c192_se0.25"; "ir_r1_k5_s1_e6_c192_se0.25"; "ir_r1_k5_s1_e6_c192_se0.25"];
     ["cn_r1_k1_s1_c320_se0.25"]]%string
    224.

(** The chain of tests on [args.model_selection]; for a selection that is
    in none of them [arch_list] and [arch_def] stay unbound. *)
Definition select_architecture (model_selection : Z) : option architecture :=
  if model_selection =? 470 then Some architecture_470
  else if model_selection =? 42 then Some architecture_42
  else if model_selection =? 14 then Some architecture_14
  else if model_selection =? 112 then Some architecture_112
  else if model_selection =? 285 then Some architecture_285
  else if model_selection =? 600 then Some architecture_600
  else None.

(** The interior stages of a list of stages: all but the first and the
    last. *)
Definition interior {A} (stages : list A) : list A := removelast (tl stages).

(** The sizes of the interior stages of [arch_def]. *)
Definition stage_sizes (a : architecture) : list Z :=
  map (fun stage => Z.of_nat (List.length stage)) (interior (arch_def a)).

End Architectures.

(** ** Properties of skeletons and candidates *)

(** [np.sqrt(np.finfo(np.float64).eps)], that is [2^-26]: the tolerance
    within which a vector of doubles sums to 1. *)
Definition atol : Q := 1 # 67108864.

(** [pv] is a probability distribution over [n] options: one weight per
    option, none negative, summing to 1 within the tolerance. *)
Definition valid_prior (n : Z) (pv : list Q) : Prop :=
  Z.of_nat (List.length pv) = n /\
  Forall (fun x => (0 <= x)%Q) pv /\
  (Qabs (Numpy.Qsum pv - 1) <= atol)%Q.

(** The two policies [get_prob] knows. *)
Definition recognized (how : string) : Prop :=
  how = "even"%string \/ how = "pre_prob"%string.

(** What [get_prob] resolves to, as a relation on the object: [None] under
    'even', the attribute [pre_prob] under 'pre_prob'. *)
Definition resolves (s : mutator) (prob : option (list Q)) : Prop :=
  how_to_prob s = "even"%string /\ prob = None \/
  how_to_prob s = "pre_prob"%string /\ prob = pre_prob s.

(** The skeleton of the object: a choice count of at least one, stage sizes
    that are not negative, and, where the weighted policy will use it, a
    prior that is a probability distribution over the options. *)
Definition valid_skeleton (s : mutator) : Prop :=
  1 <= CHOICE_NUM s /\
  Forall (fun n => 0 <= n) (sta_num s) /\
  (how_to_prob s = "pre_prob"%string ->
   forall pv, pre_prob s = Some pv -> valid_prior (CHOICE_NUM s) pv).

(** The choice count and the stage sizes are within what the primitive
    accepts for [int64] indices. *)
Definition representable (s : mutator) : Prop :=
  CHOICE_NUM s <= int64_high /\
  Forall (fun n => n <= max_elements) (sta_num s).

(** The shape of a candidate for the stage sizes [stages]. *)
Definition well_shaped (stages : list Z) (c : candidate) : Prop :=
  List.length c = (List.length stages + 2)%nat /\
  nth_error c 0 = Some [0] /\
  nth_error c (S (List.length stages)) = Some [0] /\
  forall i n, nth_error stages i = Some n ->
    exists stage, nth_error c (S i) = Some stage /\
                  Z.of_nat (List.length stage) = n.

(** Every entry of every interior stage is an option index. *)
Definition in_range (n : Z) (c : candidate) : Prop :=
  forall i stage, (1 <= i < List.length c - 1)%nat ->
    nth_error c i = Some stage ->
    Forall (fun v => 0 <= v < n) stage.

(** What one stage of a candidate owes to its size and the choice count. *)
Definition stage_ok (n : Z) (size : Z) (stage : list Z) : Prop :=
  Z.of_nat (List.length stage) = size /\ Forall (fun v => 0 <= v < n) stage.

(** ** Concrete objects and generators *)

Definition counter_rng : rng := fun n => Z.of_nat n * 7919 + 13.

Definition weighted_mutator : mutator :=
  Mutator "pre_prob" (Some default_pre_prob) 6 [4; 4; 4; 4; 4].

(** An object with [2^64] options and one slot. *)
Definition huge_mutator : mutator :=
  Mutator "even" None (2 ^ 64) [1].

(** A prior that sums to 0.9. *)
Definition short_prior : list Q :=
  [5 # 100; 5 # 100; 2 # 10; 3 # 10; 2 # 10; 1 # 10]%Q.

(** A small model, arguments and runtime for the optimizer. *)
Definition sample_model : list Optimizer.named_parameter :=
  [ Optimizer.NamedParameter "conv.weight" [16; 3; 3; 3] true;
    Optimizer.NamedParameter "conv.bias" [16] true;
    Optimizer.NamedParameter "meta_layer.fc.weight" [10; 10] true;
    Optimizer.NamedParameter "bn.weight" [16] true;
    Optimizer.NamedParameter "stem.weight" [4; 4] false ].

Definition sample_args : Optimizer.opt_args :=
  Optimizer.OptArgs "SGD" (1 # 10000) (1 # 100) (1 # 100) (9 # 10)
                    (1 # 100000000).

Definition sample_runtime : Optimizer.runtime :=
  Optimizer.Runtime true false false.

(** * Theorems *)

(** ** Running a method body *)

Lemma run_bind {A B} (m : py A) (f : A -> py B) (w : world) :
  run (bind m f) w =
  match run m w with
  | (Ok a, w') => run (f a) w'
  | (Raise e, w') => (Raise e, w')
  end.
Proof.
  revert w;
    induction m as [a | e | k IH | s k IH | a size rep k IH]; intro w; simpl.
  - reflexivity.
  - reflexivity.
  - apply IH.
  - apply IH.
  - destruct (random_choice a size rep (np_random w)) as [[l | e] g].
    + apply IH.
    + reflexivity.
Qed.

(** A body that assigns to no attribute leaves the object as it was. *)
Lemma run_read_only {A} (m : py A) (w : world) :
  read_only m -> self (snd (run m w)) = self w.
Proof.
  revert w;
    induction m as [a | e | k IH | s k IH | a size rep k IH];
    intros w Hro; simpl in *.
  - reflexivity.
  - reflexivity.
  - apply IH, Hro.
  - contradiction.
  - destruct (random_choice a size rep (np_random w)) as [[l | e] g].
    + now rewrite IH by apply Hro.
    + reflexivity.
Qed.

Lemma read_only_bind {A B} (m : py A) (f : A -> py B) :
  read_only m -> (forall a, read_only (f a)) -> read_only (bind m f).
Proof.
  intros Hm Hf.
  induction m as [a | e | k IH | s k IH | a size rep k IH];
    cbn [bind read_only] in *.
  - apply Hf.
  - exact I.
  - intro s. now apply IH.
  - contradiction.
  - intro l. now apply IH.
Qed.

Lemma read_only_draw_stage (replace : bool) (item : Z) :
  read_only (draw_stage replace item).
Proof.
  unfold draw_stage, getattr, np_random_choice. cbn [bind read_only].
  intros; exact I.
Qed.

Lemma read_only_comprehension (replace : bool) (items : list Z) :
  read_only (comprehension (draw_stage replace) items).
Proof.
  induction items as [| item items IH]; cbn [comprehension].
  - exact I.
  - apply read_only_bind; [apply read_only_draw_stage|].
    intro x. apply read_only_bind; [exact IH | intros; exact I].
Qed.

Lemma read_only_get_prob : read_only get_prob.
Proof.
  unfold get_prob, getattr. cbn [bind read_only]. intro s.
  destruct (String.eqb (how_to_prob s) "even"); [exact I|].
  destruct (String.eqb (how_to_prob s) "pre_prob"); cbn [read_only].
  - intros; exact I.
  - exact I.
Qed.

(** [sample_search] assigns to no attribute of [self]. *)
Lemma read_only_sample_search : read_only sample_search.
Proof.
  unfold sample_search.
  apply read_only_bind; [exact read_only_get_prob|]. intro prob.
  apply read_only_bind; [unfold getattr; cbn [read_only]; intros; exact I|].
  intro items.
  apply read_only_bind; [|intros; exact I].
  destruct prob; apply read_only_comprehension.
Qed.

(** The assignments of [__init__] make the object that [__init__]
    returns, whatever the object was before. *)
Lemma run_assign_attributes (how : string) (pre : option (list Q))
    (choice_num : Z) (stages : list Z) (w : world) :
  run (assign_attributes how pre choice_num stages) w =
  (Ok tt, World (Mutator how pre choice_num stages) (np_random w)).
Proof. reflexivity. Qed.

Lemma init_runs_the_assignments {Base} (b : Base) (how : string)
    (pre : option (list Q)) (choice_num : Z) (stages : list Z) (w : world) :
  __init__ (Ok b) how pre choice_num stages =
  Ok (self (snd (run (assign_attributes how pre choice_num stages) w))).
Proof. reflexivity. Qed.

(** A body that assigns does change the object. *)
Example assignments_change_the_object :
  self (snd (run (assign_attributes "even" None 3 [1])
                 (World weighted_mutator counter_rng))) <>
  weighted_mutator.
Proof. discriminate. Qed.

Lemma run_get_prob (w : world) :
  run get_prob w =
  (if String.eqb (how_to_prob (self w)) "even" then Ok None
   else if String.eqb (how_to_prob (self w)) "pre_prob"
        then Ok (pre_prob (self w))
        else Raise (ValueError "prob method not supported"), w).
Proof.
  unfold get_prob, getattr; simpl.
  destruct (String.eqb (how_to_prob (self w)) "even"); [reflexivity|].
  destruct (String.eqb (how_to_prob (self w)) "pre_prob"); reflexivity.
Qed.

Lemma sample_search_unrecognized (w : world) :
  how_to_prob (self w) <> "even"%string ->
  how_to_prob (self w) <> "pre_prob"%string ->
  run sample_search w = (Raise (ValueError "prob method not supported"), w).
Proof.
  intros Heven Hpre.
  unfold sample_search. rewrite run_bind, run_get_prob.
  apply String.eqb_neq in Heven, Hpre. now rewrite Heven, Hpre.
Qed.

(** C5. Under a policy string that is neither 'even' nor 'pre_prob',
    [sample_search] raises the error of [get_prob] ("prob method not
    supported"), whatever the rest of the object and the generator are; it
    returns no candidate, draws nothing and falls back to no policy. *)
Theorem C5_unrecognized_policy_raises (w : world) :
  how_to_prob (self w) <> "even"%string ->
  how_to_prob (self w) <> "pre_prob"%string ->
  run sample_search w = (Raise (ValueError "prob method not supported"), w).
Proof. exact (sample_search_unrecognized w). Qed.

Lemma C5_unrecognized_policy_raises_witness :
  run sample_search
      (World (Mutator "greedy" (Some default_pre_prob) 6 [4; 4; 4; 4; 4])
             counter_rng) =
  (Raise (ValueError "prob method not supported"),
   World (Mutator "greedy" (Some default_pre_prob) 6 [4; 4; 4; 4; 4])
         counter_rng).
Proof.
  apply C5_unrecognized_policy_raises; simpl; discriminate.
Defined.

(** ** The primitive: checks and ranges *)

Lemma choice_check_None_inv (a size : Z) (replace : bool) :
  choice_check a size replace = None ->
  0 <= size /\ (size = 0 \/ 0 < a) /\ (replace = false -> size <= a).
Proof.
  intro Hc. unfold choice_check in Hc.
  destruct ((a <=? 0) && negb (size =? 0)) eqn:Ha; [discriminate|].
  assert (size = 0 \/ 0 < a) as Hsa.
  { apply andb_false_iff in Ha. destruct Ha as [Ha | Ha].
    - right. apply Z.leb_gt in Ha. lia.
    - left. apply negb_false_iff in Ha. now apply Z.eqb_eq. }
  destruct replace.
  - destruct (size <? 0) eqn:Hsize; [discriminate|].
    apply Z.ltb_ge in Hsize. split; [assumption | split; [assumption|]].
    discriminate.
  - destruct (a <? size) eqn:Hpop; [discriminate|].
    destruct (size <? 0) eqn:Hsize; [discriminate|].
    apply Z.ltb_ge in Hsize, Hpop.
    split; [assumption | split; [assumption|]]. intros _. exact Hpop.
Qed.

Lemma choice_check_replace (a size : Z) :
  1 <= a <= int64_high -> 0 <= size <= max_elements ->
  choice_check a size true = None.
Proof.
  intros Ha Hsize. unfold choice_check.
  replace (a <=? 0) with false by (symmetry; apply Z.leb_gt; lia).
  replace (size <? 0) with false by (symmetry; apply Z.ltb_ge; lia).
  replace (max_elements <? size) with false
    by (symmetry; apply Z.ltb_ge; lia).
  replace (int64_high <? a) with false by (symmetry; apply Z.ltb_ge; lia).
  now rewrite andb_false_r.
Qed.

Lemma draw_n_length {A} (draw : rng -> A * rng) (n : nat) (g : rng) :
  List.length (fst (draw_n draw n g)) = n.
Proof.
  revert g; induction n as [| n IH]; intro g; simpl; [reflexivity|].
  destruct (draw g) as [x g1]. specialize (IH g1).
  destruct (draw_n draw n g1) as [xs g2]. simpl in *. now rewrite IH.
Qed.

Lemma draw_n_Forall {A} (P : A -> Prop) (draw : rng -> A * rng) (n : nat)
    (g : rng) :
  (forall g0, P (fst (draw g0))) -> Forall P (fst (draw_n draw n g)).
Proof.
  intro Hdraw. revert g; induction n as [| n IH]; intro g; simpl.
  - constructor.
  - pose proof (Hdraw g) as Hx. destruct (draw g) as [x g1].
    specialize (IH g1). destruct (draw_n draw n g1) as [xs g2].
    simpl in *. now constructor.
Qed.

Lemma update_length (x : list Z) (i : nat) (v : Z) :
  List.length (update x i v) = List.length x.
Proof.
  revert i; induction x as [| h t IH]; intros [| i]; simpl; auto.
Qed.

Lemma update_Forall (P : Z -> Prop) (x : list Z) (i : nat) (v : Z) :
  Forall P x -> P v -> Forall P (update x i v).
Proof.
  intros Hx Hv. revert i.
  induction Hx as [| h t Hh Ht IH]; intros [| i]; simpl.
  - constructor.
  - constructor.
  - now constructor.
  - constructor; [exact Hh | apply IH].
Qed.

Lemma swap_length (x : list Z) (i j : nat) :
  List.length (swap x i j) = List.length x.
Proof.
  unfold swap. destruct (nth_error x i), (nth_error x j);
    try reflexivity. now rewrite !update_length.
Qed.

Lemma swap_Forall (P : Z -> Prop) (x : list Z) (i j : nat) :
  Forall P x -> Forall P (swap x i j).
Proof.
  intro Hx. unfold swap.
  destruct (nth_error x i) as [xi|] eqn:Hi; [|exact Hx].
  destruct (nth_error x j) as [xj|] eqn:Hj; [|exact Hx].
  rewrite Forall_forall in Hx.
  apply update_Forall; [apply update_Forall|].
  - now apply Forall_forall.
  - eapply Hx, nth_error_In; exact Hj.
  - eapply Hx, nth_error_In; exact Hi.
Qed.

Lemma shuffle_from_spec (P : Z -> Prop) (i : nat) (x : list Z) (g : rng) :
  Forall P x ->
  Forall P (fst (shuffle_from i x g)) /\
  List.length (fst (shuffle_from i x g)) = List.length x.
Proof.
  revert x g; induction i as [| i IH]; intros x g Hx; cbn [shuffle_from].
  - now split.
  - destruct (random_interval (Z.of_nat (S i)) g) as [j g'].
    destruct (IH (swap x (S i) (Z.to_nat j)) g' (swap_Forall _ _ _ _ Hx))
      as [HP Hlen].
    split; [exact HP|]. now rewrite Hlen, swap_length.
Qed.

Lemma arange_Forall (n : nat) :
  Forall (fun v => 0 <= v < Z.of_nat n) (arange n).
Proof.
  unfold arange. apply Forall_forall. intros v Hv.
  apply in_map_iff in Hv. destruct Hv as (i & <- & Hi).
  apply in_seq in Hi. lia.
Qed.

Lemma arange_length (n : nat) : List.length (arange n) = n.
Proof. unfold arange. now rewrite length_map, length_seq. Qed.

(** A call the checks let through returns [size] indices below [a]. *)
Lemma random_choice_accepted (a size : Z) (replace : bool) (g : rng) :
  choice_check a size replace = None ->
  exists l g', random_choice a size replace g = (Ok l, g') /\
               Z.of_nat (List.length l) = size /\
               Forall (fun v => 0 <= v < a) l.
Proof.
  intro Hc. unfold random_choice. rewrite Hc.
  apply choice_check_None_inv in Hc. destruct Hc as (Hsize & Hsa & Hpop).
  destruct replace.
  - pose proof (draw_n_length (randint a) (Z.to_nat size) g) as Hl.
    destruct Hsa as [-> | Hpos].
    + simpl. exists [], g. repeat split. constructor.
    + assert (Forall (fun v => 0 <= v < a)
                (fst (draw_n (randint a) (Z.to_nat size) g))) as Hr.
      { apply draw_n_Forall. intro g0. unfold randint, rng_next; simpl.
        apply Z.mod_pos_bound. exact Hpos. }
      destruct (draw_n (randint a) (Z.to_nat size) g) as [l g'].
      simpl in *. exists l, g'. repeat split; [lia | exact Hr].
  - specialize (Hpop eq_refl). unfold permutation.
    destruct (shuffle_from_spec (fun v => 0 <= v < Z.of_nat (Z.to_nat a))
                (Z.to_nat a - 1) (arange (Z.to_nat a)) g
                (arange_Forall _)) as [HP Hlen].
    rewrite arange_length in Hlen.
    destruct (shuffle_from (Z.to_nat a - 1) (arange (Z.to_nat a)) g)
      as [perm g1]. simpl in HP, Hlen.
    exists (firstn (Z.to_nat size) perm), g1. repeat split.
    + rewrite length_firstn, Hlen. lia.
    + rewrite <- (firstn_skipn (Z.to_nat size) perm) in HP.
      apply Forall_app in HP. destruct HP as [HP _].
      eapply Forall_impl; [|exact HP]. intros v Hv. simpl in Hv. lia.
Qed.

Lemma random_choice_rejected (a size : Z) (replace : bool) (g : rng)
    (e : exn) :
  choice_check a size replace = Some e ->
  random_choice a size replace g = (Raise e, g).
Proof. intro Hc. unfold random_choice. now rewrite Hc. Qed.

(** ** The comprehensions of [sample_search] *)

Lemma run_draw_stage (replace : bool) (item : Z) (s : mutator) (g : rng) :
  run (draw_stage replace item) (World s g) =
  match random_choice (CHOICE_NUM s) item replace g with
  | (Ok l, g') => (Ok l, World s g')
  | (Raise e, g') => (Raise e, World s g')
  end.
Proof.
  unfold draw_stage, getattr, np_random_choice. simpl.
  destruct (random_choice (CHOICE_NUM s) item replace g) as [[l | e] g'];
    reflexivity.
Qed.

Lemma run_comprehension_accepted (replace : bool) (items : list Z)
    (s : mutator) (g : rng) :
  Forall (fun item => choice_check (CHOICE_NUM s) item replace = None)
         items ->
  exists c g', run (comprehension (draw_stage replace) items) (World s g) =
                 (Ok c, World s g') /\
               Forall2 (stage_ok (CHOICE_NUM s)) items c.
Proof.
  intro Hall. revert g.
  induction Hall as [| item items Hitem _ IH]; intro g.
  - exists [], g. split; [reflexivity | constructor].
  - cbn [comprehension]. rewrite run_bind, run_draw_stage.
    destruct (random_choice_accepted _ _ _ g Hitem)
      as (l & g1 & -> & Hlen & Hrange).
    rewrite run_bind.
    destruct (IH g1) as (c & g2 & -> & Hc).
    exists (l :: c), g2. split; [reflexivity|].
    constructor; [split; assumption | exact Hc].
Qed.

Lemma run_comprehension_inv (replace : bool) (items : list Z)
    (s : mutator) (g : rng) (c : candidate) (w' : world) :
  run (comprehension (draw_stage replace) items) (World s g) = (Ok c, w') ->
  Forall2 (stage_ok (CHOICE_NUM s)) items c.
Proof.
  revert g c w'.
  induction items as [| item items IH]; intros g c w' Hrun.
  - simpl in Hrun. injection Hrun as <- _. constructor.
  - cbn [comprehension] in Hrun. rewrite run_bind, run_draw_stage in Hrun.
    destruct (choice_check (CHOICE_NUM s) item replace) as [e|] eqn:Hc.
    + rewrite (random_choice_rejected _ _ _ g e Hc) in Hrun. discriminate.
    + destruct (random_choice_accepted _ _ _ g Hc)
        as (l & g1 & Hl & Hlen & Hrange).
      rewrite Hl, run_bind in Hrun.
      destruct (run (comprehension (draw_stage replace) items) (World s g1))
        as [[c1 | e] w1] eqn:Hrest; [|discriminate].
      simpl in Hrun. injection Hrun as <- _.
      constructor; [split; assumption | eapply IH; exact Hrest].
Qed.

Lemma run_sample_search (s : mutator) (g : rng) (prob : option (list Q)) :
  fst (run get_prob (World s g)) = Ok prob ->
  run sample_search (World s g) =
  match run (comprehension (draw_stage (replace_of prob)) (sta_num s))
            (World s g) with
  | (Ok c, w') => (Ok ([0] :: c ++ [[0]]), w')
  | (Raise e, w') => (Raise e, w')
  end.
Proof.
  intro Hprob. unfold sample_search.
  rewrite run_bind. rewrite run_get_prob in *. simpl fst in Hprob.
  simpl self. rewrite Hprob. cbv iota.
  rewrite run_bind. unfold getattr at 1. cbn [run self]. cbv iota.
  rewrite run_bind.
  destruct prob as [pv|]; cbn [replace_of];
    destruct (run (comprehension _ (sta_num s)) (World s g)) as [[c | e] w'];
    reflexivity.
Qed.

Lemma Forall2_nth_error {A B} (R : A -> B -> Prop) (l : list A)
    (l' : list B) (i : nat) (x : A) :
  Forall2 R l l' -> nth_error l i = Some x ->
  exists y, nth_error l' i = Some y /\ R x y.
Proof.
  intro H. revert i. induction H as [| a b l l' Hab _ IH]; intros i Hi.
  - destruct i; discriminate.
  - destruct i as [| i]; simpl in *.
    + injection Hi as <-. eauto.
    + now apply IH.
Qed.

Lemma Forall2_nth_error_r {A B} (R : A -> B -> Prop) (l : list A)
    (l' : list B) (i : nat) (y : B) :
  Forall2 R l l' -> nth_error l' i = Some y ->
  exists x, nth_error l i = Some x /\ R x y.
Proof.
  intro H. revert i. induction H as [| a b l l' Hab _ IH]; intros i Hi.
  - destruct i; discriminate.
  - destruct i as [| i]; simpl in *.
    + injection Hi as <-. eauto.
    + now apply IH.
Qed.

Lemma stages_well_shaped (n : Z) (items : list Z) (c : candidate) :
  Forall2 (stage_ok n) items c -> well_shaped items ([0] :: c ++ [[0]]).
Proof.
  intro H. pose proof (Forall2_length H) as Hlen.
  unfold well_shaped. repeat split.
  - simpl. rewrite length_app. simpl. lia.
  - cbn [nth_error]. rewrite Hlen, nth_error_app2 by lia.
    now rewrite Nat.sub_diag.
  - intros i size Hi.
    destruct (Forall2_nth_error _ _ _ _ _ H Hi) as (stage & Hs & Hok & _).
    exists stage. split; [|exact Hok].
    cbn [nth_error]. rewrite nth_error_app1; [exact Hs|].
    apply nth_error_Some. congruence.
Qed.

Lemma stages_in_range (n : Z) (items : list Z) (c : candidate) :
  Forall2 (stage_ok n) items c -> in_range n ([0] :: c ++ [[0]]).
Proof.
  intros H i stage Hi Hs.
  simpl in Hi. rewrite length_app in Hi. simpl in Hi.
  destruct i as [| i]; [lia|].
  cbn [nth_error] in Hs. rewrite nth_error_app1 in Hs by lia.
  destruct (Forall2_nth_error_r _ _ _ _ _ H Hs) as (size & _ & _ & Hr).
  exact Hr.
Qed.

(** What [get_prob] resolves to on an object with a recognized policy. *)
Lemma get_prob_recognized (s : mutator) (g : rng) :
  recognized (how_to_prob s) ->
  fst (run get_prob (World s g)) =
  Ok (if String.eqb (how_to_prob s) "even" then None else pre_prob s).
Proof.
  intros [H | H]; rewrite run_get_prob; simpl; rewrite H; reflexivity.
Qed.

Lemma valid_prior_nonempty (n : Z) (pv : list Q) :
  valid_prior n pv -> tuple_bool pv = true.
Proof.
  intros (_ & _ & Hsum). destruct pv as [| x pv]; [|reflexivity].
  exfalso. revert Hsum. apply Qlt_not_le. reflexivity.
Qed.

(** On a valid skeleton every draw is made with replacement and passes the
    checks of the primitive. *)
Lemma valid_skeleton_accepted (s : mutator) :
  recognized (how_to_prob s) -> valid_skeleton s -> representable s ->
  Forall (fun item =>
            choice_check (CHOICE_NUM s) item
              (replace_of (if String.eqb (how_to_prob s) "even" then None
                           else pre_prob s)) = None)
         (sta_num s).
Proof.
  intros Hrec (Hn & Hitems & Hprior) (Hhigh & Hmax).
  pose proof (Forall_and Hitems Hmax) as Hboth.
  eapply Forall_impl; [|exact Hboth]. intros item Hitem. simpl in Hitem.
  destruct Hrec as [H | H]; rewrite H; simpl.
  - apply choice_check_replace; lia.
  - destruct (pre_prob s) as [pv|] eqn:Hp; cbn [replace_of].
    + rewrite (valid_prior_nonempty _ _ (Hprior H pv eq_refl)).
      apply choice_check_replace; lia.
    + apply choice_check_replace; lia.
Qed.

(** C3, as the code has it. On an object with a recognized policy and a
    valid skeleton (choice count at least one, stage sizes not negative,
    and under 'pre_prob' a prior that is a probability distribution over
    the options) whose choice count is at most [2^63] and whose stage sizes
    are below [2^60], [sample_search] returns a candidate, and the
    candidate has [len(sta_num) + 2] stages, of which the first and the
    last are [[0]] and interior stage [i] has [sta_num[i]] entries. *)
Theorem C3_sample_shape (w : world) :
  recognized (how_to_prob (self w)) ->
  valid_skeleton (self w) ->
  representable (self w) ->
  exists c w', run sample_search w = (Ok c, w') /\
               well_shaped (sta_num (self w)) c.
Proof.
  destruct w as [s g]. simpl self. intros Hrec Hvalid Hrepr.
  rewrite (run_sample_search s g _ (get_prob_recognized s g Hrec)).
  destruct (run_comprehension_accepted _ _ s g
              (valid_skeleton_accepted s Hrec Hvalid Hrepr))
    as (c & g' & -> & Hc).
  exists ([0] :: c ++ [[0]]), (World s g'). split; [reflexivity|].
  eapply stages_well_shaped; exact Hc.
Qed.

Lemma default_pre_prob_valid : valid_prior 6 default_pre_prob.
Proof.
  repeat split.
  - repeat constructor; discriminate.
  - discriminate.
Qed.

Lemma weighted_mutator_valid : valid_skeleton weighted_mutator.
Proof.
  split; [simpl; lia | split; [repeat constructor; discriminate|]].
  intros _ pv [= <-]. exact default_pre_prob_valid.
Qed.

Lemma weighted_mutator_representable : representable weighted_mutator.
Proof.
  split; [discriminate | repeat constructor; discriminate].
Qed.

Lemma C3_sample_shape_witness :
  exists c w',
    run sample_search (World weighted_mutator counter_rng) = (Ok c, w') /\
    well_shaped [4; 4; 4; 4; 4] c.
Proof.
  apply (C3_sample_shape (World weighted_mutator counter_rng)).
  - right; reflexivity.
  - exact weighted_mutator_valid.
  - exact weighted_mutator_representable.
Defined.

(** C3 as stated fails: with a choice count of [2^64] the skeleton is
    valid, the draw of the one slot is refused by the primitive and no
    candidate is returned. *)
Lemma C3_choice_count_beyond_int64 :
  recognized (how_to_prob huge_mutator) /\
  valid_skeleton huge_mutator /\
  fst (run sample_search (World huge_mutator counter_rng)) =
  Raise (ValueError "high is out of bounds for int64").
Proof.
  split; [left; reflexivity | split].
  - split; [discriminate | split; [repeat constructor; discriminate|]].
    discriminate.
  - vm_compute. reflexivity.
Qed.

(** C4. Whatever the object and the generator, every entry of every
    interior stage of a candidate that [sample_search] returns lies in
    [[0, CHOICE_NUM)]. *)
Theorem C4_entries_in_range (w : world) (c : candidate) (w' : world) :
  run sample_search w = (Ok c, w') ->
  in_range (CHOICE_NUM (self w)) c.
Proof.
  destruct w as [s g]. simpl self. intro Hrun.
  destruct (fst (run get_prob (World s g))) as [prob | e] eqn:Hprob.
  - rewrite (run_sample_search s g prob Hprob) in Hrun.
    destruct (run (comprehension (draw_stage (replace_of prob)) (sta_num s))
                  (World s g))
      as [[c0 | e] w0] eqn:Hstages; [|discriminate].
    injection Hrun as <- _.
    eapply stages_in_range. eapply run_comprehension_inv. exact Hstages.
  - unfold sample_search in Hrun. rewrite run_bind in Hrun.
    destruct (run get_prob (World s g)) as [[prob | e0] w0];
      [discriminate Hprob | discriminate Hrun].
Qed.

Lemma C4_entries_in_range_witness :
  in_range 6
    [[0]; [1; 0; 5; 4]; [3; 2; 1; 0]; [5; 4; 3; 2]; [1; 0; 5; 4];
     [3; 2; 1; 0]; [0]].
Proof.
  apply (C4_entries_in_range
           (World default_mutator counter_rng) _
           (snd (run sample_search (World default_mutator counter_rng)))).
  vm_compute. reflexivity.
Defined.

(** C6. [sample_final] is [sample_search]: the same body, hence the same
    outcome and generator state on every object and generator, and the same
    law of the outcome on every object. *)
Theorem C6_sample_final_is_sample_search :
  sample_final = sample_search /\
  (forall w, run sample_final w = run sample_search w) /\
  (forall s, law sample_final s = law sample_search s).
Proof. repeat split. Qed.

(** C8. Construction does not look at the policy string: with the base
    class constructed, [__init__] returns the object whatever [how_to_prob]
    is, and for a string that is neither 'even' nor 'pre_prob' the error
    comes from [get_prob] at the first [sample_search]. *)
Theorem C8_policy_checked_at_first_sample {Base} (b : Base) (how : string)
    (pre : option (list Q)) (n : Z) (stages : list Z) (g : rng) :
  how <> "even"%string -> how <> "pre_prob"%string ->
  exists obj,
    __init__ (Ok b) how pre n stages = Ok obj /\
    obj = Mutator how pre n stages /\
    run sample_search (World obj g) =
    (Raise (ValueError "prob method not supported"), World obj g).
Proof.
  intros Heven Hpre. exists (Mutator how pre n stages).
  repeat split. now apply sample_search_unrecognized.
Qed.

Lemma C8_policy_checked_at_first_sample_witness :
  exists obj,
    __init__ (Ok tt) "greedy" (Some default_pre_prob) 6 [4; 4; 4; 4; 4] =
    Ok obj /\
    obj = Mutator "greedy" (Some default_pre_prob) 6 [4; 4; 4; 4; 4] /\
    run sample_search (World obj counter_rng) =
    (Raise (ValueError "prob method not supported"), World obj counter_rng).
Proof.
  apply (C8_policy_checked_at_first_sample tt "greedy"
           (Some default_pre_prob) 6 [4; 4; 4; 4; 4] counter_rng);
    discriminate.
Defined.

(** C9. A call of [sample_search] or [sample_final] leaves the object as it
    was, whether it returns or raises: [how_to_prob], [pre_prob],
    [CHOICE_NUM] and [sta_num] are the same after as before. A method body
    can assign to the attributes, as [__init__] does; these two bodies make
    no assignment. The state a call threads is the object and NumPy's
    generator, so the generator is all it can change. *)
Theorem C9_configuration_unchanged (w : world) :
  self (snd (run sample_search w)) = self w /\
  self (snd (run sample_final w)) = self w.
Proof.
  split; apply run_read_only; exact read_only_sample_search.
Qed.

(** ** The dataset stage of the driver *)

(** C10, as the code has it. In a run without [--tiny] and with [--data d]
    that reaches the dataset stage, if nothing exists at [d/train], or
    [d/val] is not a directory, the stage logs one error and exits with
    code 1; nothing is loaded. *)
Theorem C10_missing_dataset_exits (fs : filesystem) (a : args) (d : string) :
  tiny a = false ->
  data a = Some d ->
  os_path_exists fs (os_path_join d "train") = false \/
  os_path_isdir fs (os_path_join d "val") = false ->
  exists msg,
    dataset_stage fs a = ([LoggerError msg], Exit 1) /\
    existsb is_load (fst (dataset_stage fs a)) = false.
Proof.
  intros Htiny Hdata Hmissing. unfold dataset_stage.
  rewrite Htiny, Hdata.
  destruct (os_path_exists fs (os_path_join d "train")) eqn:Htrain;
    cbn [negb].
  - destruct Hmissing as [Habs | Hval]; [discriminate|].
    rewrite Hval. cbn [negb]. eexists. split; reflexivity.
  - eexists. split; reflexivity.
Qed.

Lemma C10_missing_dataset_exits_witness :
  exists msg,
    dataset_stage (fs_of [("/d/train"%string, Dir)])
                  (Args false (Some "/d"%string) 32) =
    ([LoggerError msg], Exit 1) /\
    existsb is_load
      (fst (dataset_stage (fs_of [("/d/train"%string, Dir)])
                          (Args false (Some "/d"%string) 32))) = false.
Proof.
  apply (C10_missing_dataset_exits
           (fs_of [("/d/train"%string, Dir)])
           (Args false (Some "/d"%string) 32) "/d").
  - reflexivity.
  - reflexivity.
  - right. reflexivity.
Defined.

(** C10 as stated fails: with [--tiny] the stage makes no check and goes on
    to load although neither directory exists, and without it a regular
    file at [d/train] passes the check of the training folder. *)
Lemma C10_missing_dataset_not_checked :
  dataset_stage (fs_of []) (Args true (Some "/d"%string) 32) =
  ([GetNewImagenet (Some "/d"%string) 32], Proceed) /\
  dataset_stage (fs_of [("/d/train"%string, File); ("/d/val"%string, Dir)])
                (Args false (Some "/d"%string) 32) =
  ([LoadDataset "/d/val"; CreateLoader 128], Proceed).
Proof. split; reflexivity. Qed.

(** ** Finite distributions *)

Lemma Qsum_app (l1 l2 : list Q) : (Qsum (l1 ++ l2) == Qsum l1 + Qsum l2)%Q.
Proof.
  induction l1 as [| x l1 IH]; simpl.
  - ring.
  - rewrite IH. ring.
Qed.

Lemma pr_nil {A} (E : A -> bool) : pr E [] = 0%Q.
Proof. reflexivity. Qed.

Lemma pr_cons {A} (E : A -> bool) (a : A) (w : Q) (d : dist A) :
  (pr E ((a, w) :: d) == (if E a then w else 0) + pr E d)%Q.
Proof.
  unfold pr, mass. simpl. destruct (E a); simpl; ring.
Qed.

Lemma pr_app {A} (E : A -> bool) (d1 d2 : dist A) :
  (pr E (d1 ++ d2) == pr E d1 + pr E d2)%Q.
Proof.
  unfold pr, mass. rewrite filter_app, map_app. apply Qsum_app.
Qed.

Lemma pr_scale {A} (E : A -> bool) (w : Q) (d : dist A) :
  (pr E (scale w d) == w * pr E d)%Q.
Proof.
  induction d as [| [a v] d IH].
  - unfold pr, mass; simpl. ring.
  - change (scale w ((a, v) :: d)) with ((a, (w * v)%Q) :: scale w d).
    rewrite !pr_cons, IH. destruct (E a); ring.
Qed.

Lemma pr_true {A} (d : dist A) : pr (fun _ => true) d = mass d.
Proof.
  unfold pr. f_equal. induction d as [| x d IH]; simpl; congruence.
Qed.

Lemma pr_dret {A} (E : A -> bool) (x : A) :
  (pr E (dret x) == if E x then 1 else 0)%Q.
Proof. unfold dret. rewrite pr_cons, pr_nil. destruct (E x); ring. Qed.

Lemma pr_dbind_cons {A B} (E : B -> bool) (a : A) (w : Q) (d : dist A)
    (f : A -> dist B) :
  (pr E (dbind ((a, w) :: d) f) == w * pr E (f a) + pr E (dbind d f))%Q.
Proof.
  change (dbind ((a, w) :: d) f) with (scale w (f a) ++ dbind d f).
  rewrite pr_app, pr_scale. reflexivity.
Qed.

(** If on the support of [d] the event has probability [c] after the
    outcomes in [G] and 0 after the others, it has probability
    [pr G d * c] after [d]. *)
Lemma pr_dbind_cond {A B} (E : B -> bool) (G : A -> bool) (c : Q)
    (d : dist A) (f : A -> dist B) :
  (forall a w, In (a, w) d -> pr E (f a) == if G a then c else 0)%Q ->
  (pr E (dbind d f) == pr G d * c)%Q.
Proof.
  induction d as [| [a w] d IH]; intro H.
  - unfold dbind; simpl. rewrite !pr_nil. ring.
  - rewrite pr_dbind_cons, pr_cons, IH.
    + rewrite (H a w) by now left. destruct (G a); ring.
    + intros a' w' Hin. apply (H a' w'). now right.
Qed.

Lemma pr_dbind_ext {A B} (E E' : B -> bool) (d : dist A)
    (f g : A -> dist B) :
  (forall a w, In (a, w) d -> pr E (f a) == pr E' (g a))%Q ->
  (pr E (dbind d f) == pr E' (dbind d g))%Q.
Proof.
  induction d as [| [a w] d IH]; intro H.
  - reflexivity.
  - rewrite !pr_dbind_cons, IH.
    + rewrite (H a w) by now left. reflexivity.
    + intros a' w' Hin. apply (H a' w'). now right.
Qed.

Lemma pr_dbind_dret {A B} (E : B -> bool) (d : dist A) (h : A -> B) :
  (pr E (dbind d (fun a => dret (h a))) == pr (fun a => E (h a)) d)%Q.
Proof.
  induction d as [| [a w] d IH].
  - reflexivity.
  - rewrite pr_dbind_cons, pr_cons, IH, pr_dret. destruct (E (h a)); ring.
Qed.

Lemma pr_dbind_scale {A B} (E : B -> bool) (w : Q) (d : dist A)
    (f : A -> dist B) :
  (pr E (dbind (scale w d) f) == w * pr E (dbind d f))%Q.
Proof.
  induction d as [| [a v] d IH].
  - unfold dbind; simpl. rewrite pr_nil. ring.
  - change (scale w ((a, v) :: d)) with ((a, (w * v)%Q) :: scale w d).
    rewrite !pr_dbind_cons, IH. ring.
Qed.

Lemma dbind_app {A B} (d1 d2 : dist A) (f : A -> dist B) :
  dbind (d1 ++ d2) f = dbind d1 f ++ dbind d2 f.
Proof. unfold dbind. apply flat_map_app. Qed.

Lemma pr_dbind_assoc {A B C} (E : C -> bool) (d : dist A)
    (f : A -> dist B) (g : B -> dist C) :
  (pr E (dbind (dbind d f) g) == pr E (dbind d (fun a => dbind (f a) g)))%Q.
Proof.
  induction d as [| [a w] d IH].
  - reflexivity.
  - change (dbind ((a, w) :: d) f) with (scale w (f a) ++ dbind d f).
    rewrite dbind_app, pr_app, pr_dbind_scale, IH, pr_dbind_cons.
    reflexivity.
Qed.

Lemma pr_dbind_dret_l {A B} (E : B -> bool) (x : A) (f : A -> dist B) :
  (pr E (dbind (dret x) f) == pr E (f x))%Q.
Proof.
  unfold dret. rewrite pr_dbind_cons. unfold dbind; simpl.
  rewrite pr_nil. ring.
Qed.

(** ** Independent draws *)

Lemma mass_iid {A} (d : dist A) (n : nat) :
  (mass d == 1)%Q -> (mass (iid d n) == 1)%Q.
Proof.
  intro Hd. induction n as [| n IH].
  - reflexivity.
  - rewrite <- pr_true. cbn [iid].
    rewrite (pr_dbind_cond _ (fun _ => true) 1%Q).
    + rewrite pr_true, Hd. ring.
    + intros x w _. rewrite pr_dbind_dret, pr_true. exact IH.
Qed.

(** Each of the [n] draws has the law [d]. *)
Lemma pr_iid_nth (d : dist Z) (n j : nat) (k : Z) :
  (mass d == 1)%Q -> (j < n)%nat ->
  (pr (nth_is j k) (iid d n) == pr (fun v => v =? k) d)%Q.
Proof.
  intro Hd. revert j. induction n as [| n IH]; intros j Hj; [lia|].
  cbn [iid]. destruct j as [| j].
  - rewrite (pr_dbind_cond _ (fun v => v =? k) 1%Q); [ring|].
    intros x w _. rewrite pr_dbind_dret.
    unfold nth_is; cbn [nth_error].
    destruct (x =? k).
    + rewrite pr_true. now apply mass_iid.
    + clear. induction (iid d n) as [| [l v] t IHt]; [reflexivity|].
      rewrite pr_cons, IHt. ring.
  - rewrite (pr_dbind_cond _ (fun _ => true) (pr (fun v => v =? k) d)).
    + rewrite pr_true, Hd. ring.
    + intros x w _. rewrite pr_dbind_dret.
      change (fun a : list Z => nth_is (S j) k (x :: a)) with (nth_is j k).
      apply IH. lia.
Qed.

(** ** The law of one index *)

Lemma mass_indexed_from (i : Z) (ws : list Q) :
  mass (indexed_from i ws) = Qsum ws.
Proof.
  revert i; induction ws as [| w ws IH]; intro i; [reflexivity|].
  unfold mass in *. simpl. now rewrite IH.
Qed.

Lemma pr_indexed_from_below (i k : Z) (ws : list Q) :
  k < i -> (pr (fun v => v =? k) (indexed_from i ws) == 0)%Q.
Proof.
  revert i; induction ws as [| w ws IH]; intros i Hk; [reflexivity|].
  cbn [indexed_from]. rewrite pr_cons, IH by lia.
  replace (i =? k) with false by (symmetry; apply Z.eqb_neq; lia). ring.
Qed.

Lemma pr_indexed_from (i k : Z) (ws : list Q) :
  i <= k ->
  (pr (fun v => v =? k) (indexed_from i ws) ==
   nth (Z.to_nat (k - i)) ws 0)%Q.
Proof.
  revert i; induction ws as [| w ws IH]; intros i Hk.
  - destruct (Z.to_nat (k - i)); reflexivity.
  - cbn [indexed_from]. rewrite pr_cons.
    destruct (Z.eqb_spec i k) as [-> | Hne].
    + rewrite pr_indexed_from_below by lia.
      rewrite Z.sub_diag. simpl. ring.
    + rewrite IH by lia.
      replace (Z.to_nat (k - i)) with (S (Z.to_nat (k - (i + 1)))) by lia.
      simpl. ring.
Qed.

Lemma Qsum_repeat (c : Q) (n : nat) :
  (Qsum (repeat c n) == inject_Z (Z.of_nat n) * c)%Q.
Proof.
  induction n as [| n IH].
  - simpl. ring.
  - cbn [repeat Qsum fold_right]. change (fold_right Qplus 0 (repeat c n))%Q
      with (Qsum (repeat c n)).
    rewrite IH, Nat2Z.inj_succ. unfold Z.succ. rewrite inject_Z_plus. ring.
Qed.

Lemma mass_uniform (a : Z) :
  1 <= a -> (mass (randint_dist a) == 1)%Q.
Proof.
  intro Ha. unfold randint_dist.
  rewrite mass_indexed_from, Qsum_repeat, Z2Nat.id by lia.
  field. intro E.
  apply (inject_Z_injective a 0) in E. lia.
Qed.

Lemma pr_uniform (a k : Z) :
  0 <= k < a ->
  (pr (fun v => v =? k) (randint_dist a) == 1 / inject_Z a)%Q.
Proof.
  intro Hk. unfold randint_dist. rewrite pr_indexed_from by lia.
  rewrite Z.sub_0_r.
  rewrite nth_repeat_lt by lia. reflexivity.
Qed.

(** ** The law of a method body *)

Lemma pr_ext {A} (E E' : A -> bool) (d : dist A) :
  (forall a, E a = E' a) -> pr E d = pr E' d.
Proof.
  intro H. unfold pr. f_equal. apply filter_ext. intros [a w]. apply H.
Qed.

Lemma pr_false {A} (d : dist A) : (pr (fun _ => false) d == 0)%Q.
Proof.
  induction d as [| [a w] d IH]; [reflexivity|].
  rewrite pr_cons, IH. ring.
Qed.

Lemma pr_law_bind {A B} (E : res B -> bool) (m : py A) (f : A -> py B)
    (s : mutator) :
  read_only m ->
  (pr E (law (bind m f) s) ==
   pr E (dbind (law m s) (on_ok (fun a => law (f a) s))))%Q.
Proof.
  induction m as [a | e | k IH | s' k IH | a size rep k IH];
    intro Hro; cbn [bind law read_only] in *.
  - now rewrite pr_dbind_dret_l.
  - now rewrite pr_dbind_dret_l.
  - apply IH, Hro.
  - contradiction.
  - rewrite pr_dbind_assoc. apply pr_dbind_ext.
    intros [l | e] w _; cbn [on_ok].
    + apply IH, Hro.
    + now rewrite pr_dbind_dret_l.
Qed.

Lemma pr_law_bind_ret {A B} (E : res B -> bool) (m : py A) (h : A -> B)
    (s : mutator) :
  read_only m ->
  (pr E (law (bind m (fun a => Ret (h a))) s) ==
   pr (fun r => E (res_map h r)) (law m s))%Q.
Proof.
  intro Hro. rewrite pr_law_bind by exact Hro.
  rewrite (pr_dbind_ext E E _ _ (fun r => dret (res_map h r))).
  - apply pr_dbind_dret.
  - intros [a | e] w _; reflexivity.
Qed.

(** A draw with replacement that the checks let through has the law of
    [item] independent uniform indices. *)
Lemma pr_law_draw_stage (G : res (list Z) -> bool) (item : Z)
    (s : mutator) :
  choice_check (CHOICE_NUM s) item true = None ->
  (pr G (law (draw_stage true item) s) ==
   pr (fun l => G (Ok l))
      (iid (randint_dist (CHOICE_NUM s)) (Z.to_nat item)))%Q.
Proof.
  intro Hc. unfold draw_stage, getattr, np_random_choice.
  cbn [bind law]. unfold random_choice_dist. rewrite Hc.
  rewrite pr_dbind_assoc.
  rewrite (pr_dbind_ext G G _ _ (fun l => dret (Ok l))).
  - apply pr_dbind_dret.
  - intros l w _. now rewrite pr_dbind_dret_l.
Qed.

Section Comprehension.

Variables (s : mutator) (items : list Z).

Hypothesis accepted :
  Forall (fun item => choice_check (CHOICE_NUM s) item true = None) items.

Hypothesis total : (mass (randint_dist (CHOICE_NUM s)) == 1)%Q.

(** The comprehension raises with probability 0. *)
Lemma pr_ok_comprehension :
  (pr is_ok (law (comprehension (draw_stage true) items) s) == 1)%Q.
Proof.
  induction accepted as [| item rest Hitem Hrest IH].
  - reflexivity.
  - cbn [comprehension].
    rewrite pr_law_bind by apply read_only_draw_stage.
    rewrite (pr_dbind_cond _ is_ok 1%Q).
    + rewrite pr_law_draw_stage by exact Hitem.
      rewrite (pr_ext _ (fun _ => true)) by reflexivity.
      rewrite pr_true, mass_iid by exact total. ring.
    + intros [x | e] w _; cbn [on_ok is_ok].
      * rewrite pr_law_bind_ret by apply read_only_comprehension.
        rewrite (pr_ext _ is_ok) by (now intros [xs | e]).
        apply IH. exact Hrest.
      * now rewrite pr_dret.
Qed.

End Comprehension.

(** Each slot of each stage of the comprehension has the law of one
    index, whatever is appended to the stages afterwards. *)
Lemma pr_slot_comprehension (s : mutator) (tail : list (list Z)) (j : nat)
    (k : Z) (items : list Z) :
  (mass (randint_dist (CHOICE_NUM s)) == 1)%Q ->
  Forall (fun item => choice_check (CHOICE_NUM s) item true = None) items ->
  forall (i : nat) (size : Z),
    nth_error items i = Some size -> Z.of_nat j < size ->
    (pr (fun r => stage_slot_is i j k (res_map (fun c => c ++ tail) r))
        (law (comprehension (draw_stage true) items) s) ==
     pr (fun v => v =? k) (randint_dist (CHOICE_NUM s)))%Q.
Proof.
  intros Htotal Hall.
  induction Hall as [| item rest Hitem Hrest IH]; intros i size Hi Hj.
  - destruct i; discriminate.
  - cbn [comprehension].
    rewrite pr_law_bind by apply read_only_draw_stage. destruct i as [| i].
    + injection Hi as ->.
      rewrite (pr_dbind_cond _
                 (fun r => match r with
                           | Ok x => nth_is j k x
                           | Raise _ => false
                           end) 1%Q).
      * rewrite pr_law_draw_stage by exact Hitem.
        rewrite pr_iid_nth by (exact Htotal || lia). ring.
      * intros [x | e] w _; cbn [on_ok].
        -- rewrite pr_law_bind_ret by apply read_only_comprehension.
           destruct (nth_is j k x) eqn:Hx.
           ++ rewrite (pr_ext _ is_ok).
              ** now apply pr_ok_comprehension.
              ** intros [xs | e]; simpl; [exact Hx | reflexivity].
           ++ rewrite (pr_ext _ (fun _ => false)).
              ** apply pr_false.
              ** intros [xs | e]; simpl; [exact Hx | reflexivity].
        -- now rewrite pr_dret.
    + rewrite (pr_dbind_cond _ is_ok
                 (pr (fun v => v =? k) (randint_dist (CHOICE_NUM s)))).
      * rewrite pr_law_draw_stage by exact Hitem.
        rewrite (pr_ext _ (fun _ => true)) by reflexivity.
        rewrite pr_true, mass_iid by exact Htotal. ring.
      * intros [x | e] w _; cbn [on_ok is_ok].
        -- rewrite pr_law_bind_ret by apply read_only_comprehension.
           rewrite (pr_ext _
                      (fun r => stage_slot_is i j k
                                  (res_map (fun c => c ++ tail) r)))
             by (now intros [xs | e]).
           eapply IH; eassumption.
        -- now rewrite pr_dret.
Qed.

(** The law of [sample_search] once [get_prob] has resolved to [prob]. *)
Lemma law_sample_search (s : mutator) (prob : option (list Q)) :
  resolves s prob ->
  law sample_search s =
  law (get_random_cand <-
         comprehension (draw_stage (replace_of prob)) (sta_num s) ;;
       Ret ([0] :: get_random_cand ++ [[0]])) s.
Proof.
  intros [[Hhow ->] | [Hhow ->]];
    unfold sample_search, get_prob, getattr; cbn [bind law];
    rewrite Hhow; cbn [String.eqb Ascii.eqb Bool.eqb bind law].
  - reflexivity.
  - destruct (pre_prob s); reflexivity.
Qed.

(** When the flag [replace] comes out true, every slot is uniform over the
    options. *)
Lemma pr_slot_sample_search (s : mutator) (prob : option (list Q))
    (i j : nat) (k size : Z) :
  resolves s prob -> replace_of prob = true ->
  1 <= CHOICE_NUM s ->
  Forall (fun n => 0 <= n) (sta_num s) ->
  representable s ->
  nth_error (sta_num s) i = Some size -> Z.of_nat j < size ->
  0 <= k < CHOICE_NUM s ->
  (pr (slot_is i j k) (law sample_search s) ==
   1 / inject_Z (CHOICE_NUM s))%Q.
Proof.
  intros Hprob Hrep Hn Hitems (Hhigh & Hmax) Hi Hj Hk.
  rewrite (law_sample_search s prob Hprob), Hrep.
  rewrite (pr_law_bind_ret _ _ (fun c => [0] :: c ++ [[0]]))
    by apply read_only_comprehension.
  rewrite (pr_ext _
             (fun r => stage_slot_is i j k
                         (res_map (fun c => c ++ [[0]]) r)))
    by (now intros [c | e]).
  rewrite (pr_slot_comprehension s [[0]] j k (sta_num s)) with (size := size).
  - now apply pr_uniform.
  - now apply mass_uniform.
  - eapply Forall_impl; [|exact (Forall_and Hitems Hmax)].
    intros item Hitem. simpl in Hitem. apply choice_check_replace; lia.
  - exact Hi.
  - exact Hj.
Qed.

(** ** The calls of the primitive *)

Lemma every_call_bind {A B} (P : Z -> Z -> bool -> Prop)
    (m : py A) (f : A -> py B) (s : mutator) :
  read_only m ->
  every_call P m s -> (forall a, every_call P (f a) s) ->
  every_call P (bind m f) s.
Proof.
  intros Hro Hm Hf.
  induction m as [a | e | k IH | s' k IH | a size rep k IH];
    cbn [bind every_call read_only] in *.
  - apply Hf.
  - exact I.
  - now apply IH.
  - contradiction.
  - destruct Hm as [HP Hk]. split; [exact HP|].
    intro l. now apply IH.
Qed.

Lemma every_call_comprehension (P : Z -> Z -> bool -> Prop)
    (replace : bool) (items : list Z) (s : mutator) :
  Forall (fun item => P (CHOICE_NUM s) item replace) items ->
  every_call P (comprehension (draw_stage replace) items) s.
Proof.
  induction 1 as [| item rest Hitem _ IH]; cbn [comprehension].
  - exact I.
  - apply every_call_bind; [apply read_only_draw_stage | |].
    + unfold draw_stage, getattr, np_random_choice.
      cbn [bind every_call]. split; [exact Hitem | intros; exact I].
    + intro x.
      apply every_call_bind;
        [apply read_only_comprehension | exact IH | intros; exact I].
Qed.

(** Every call [sample_search] makes of the primitive passes the choice
    count of the object, a stage size, and for [replace] the truth value
    of what [get_prob] resolved to (true when it resolved to [None]). *)
Lemma every_call_sample_search (s : mutator) (prob : option (list Q)) :
  resolves s prob ->
  every_call (fun a _ replace =>
                a = CHOICE_NUM s /\ replace = replace_of prob)
             sample_search s.
Proof.
  intro Hprob.
  assert (every_call (fun a _ replace =>
                        a = CHOICE_NUM s /\ replace = replace_of prob)
            (get_random_cand <-
               comprehension (draw_stage (replace_of prob)) (sta_num s) ;;
             Ret ([0] :: get_random_cand ++ [[0]])) s) as H.
  { apply every_call_bind;
      [apply read_only_comprehension | | intros; exact I].
    apply every_call_comprehension. apply Forall_forall. now intros. }
  destruct Hprob as [[Hhow ->] | [Hhow ->]];
    unfold sample_search, get_prob, getattr; cbn [bind every_call];
    rewrite Hhow; cbn [String.eqb Ascii.eqb Bool.eqb bind every_call].
  - exact H.
  - destruct (pre_prob s); exact H.
Qed.

(** ** The laws of the two policies *)

(** C7. Under 'even', [get_prob] resolves to [None], every call of the
    primitive is the two-argument call (no weights, [replace] at its
    default), and every slot [j] of every interior stage [i] holds each
    option [k] of [{0, ..., CHOICE_NUM-1}] with probability
    [1 / CHOICE_NUM]; the choice count and the stage sizes are within what
    the primitive accepts for [int64] indices. *)
Theorem C7_uniform_slot_law (s : mutator) (g : rng) (i j : nat)
    (k size : Z) :
  how_to_prob s = "even"%string ->
  1 <= CHOICE_NUM s ->
  Forall (fun n => 0 <= n) (sta_num s) ->
  representable s ->
  nth_error (sta_num s) i = Some size -> Z.of_nat j < size ->
  0 <= k < CHOICE_NUM s ->
  run get_prob (World s g) = (Ok None, World s g) /\
  every_call (fun a _ replace => a = CHOICE_NUM s /\ replace = true)
             sample_search s /\
  (pr (slot_is i j k) (law sample_search s) ==
   1 / inject_Z (CHOICE_NUM s))%Q.
Proof.
  intros Hhow Hn Hitems Hrepr Hi Hj Hk.
  assert (resolves s None) as Hprob
    by (left; split; [exact Hhow | reflexivity]).
  split; [|split].
  - rewrite run_get_prob. simpl self. now rewrite Hhow.
  - exact (every_call_sample_search s None Hprob).
  - now apply (pr_slot_sample_search s None i j k size).
Qed.

Lemma C7_uniform_slot_law_witness :
  run get_prob (World default_mutator counter_rng) =
  (Ok None, World default_mutator counter_rng) /\
  every_call (fun a _ replace => a = 6 /\ replace = true) sample_search
             default_mutator /\
  (pr (slot_is 4 3 5) (law sample_search default_mutator) == 1 # 6)%Q.
Proof.
  apply (C7_uniform_slot_law default_mutator counter_rng 4 3 5 4).
  - reflexivity.
  - simpl; lia.
  - repeat constructor; discriminate.
  - split; [discriminate | repeat constructor; discriminate].
  - reflexivity.
  - reflexivity.
  - simpl; lia.
Defined.

(** C1, on the code. Under 'pre_prob' with a prior that is a non-empty
    tuple, [sample_search] hands the prior to the primitive as its third
    positional argument, which is [replace]: every call passes [replace]
    true and no weights, and every slot holds each option with probability
    [1 / CHOICE_NUM], whatever the prior says; the choice count and the
    stage sizes are within what the primitive accepts for [int64]
    indices. *)
Theorem C1_prior_passed_as_replace (s : mutator) (pv : list Q) (i j : nat)
    (k size : Z) :
  how_to_prob s = "pre_prob"%string ->
  pre_prob s = Some pv -> pv <> [] ->
  1 <= CHOICE_NUM s ->
  Forall (fun n => 0 <= n) (sta_num s) ->
  representable s ->
  nth_error (sta_num s) i = Some size -> Z.of_nat j < size ->
  0 <= k < CHOICE_NUM s ->
  every_call (fun a _ replace => a = CHOICE_NUM s /\ replace = true)
             sample_search s /\
  (pr (slot_is i j k) (law sample_search s) ==
   1 / inject_Z (CHOICE_NUM s))%Q.
Proof.
  intros Hhow Hpre Hne Hn Hitems Hrepr Hi Hj Hk.
  assert (resolves s (Some pv)) as Hprob
    by (right; split; [exact Hhow | now symmetry]).
  assert (replace_of (Some pv) = true) as Hrep
    by (destruct pv; [contradiction | reflexivity]).
  split.
  - rewrite <- Hrep. exact (every_call_sample_search s (Some pv) Hprob).
  - now apply (pr_slot_sample_search s (Some pv) i j k size).
Qed.

Lemma C1_prior_passed_as_replace_witness :
  every_call (fun a _ replace => a = 6 /\ replace = true)
             sample_search weighted_mutator /\
  (pr (slot_is 2 1 3) (law sample_search weighted_mutator) == 1 # 6)%Q.
Proof.
  apply (C1_prior_passed_as_replace
           weighted_mutator default_pre_prob 2 1 3 4).
  - reflexivity.
  - reflexivity.
  - discriminate.
  - simpl; lia.
  - repeat constructor; discriminate.
  - exact weighted_mutator_representable.
  - reflexivity.
  - reflexivity.
  - simpl; lia.
Defined.

(** On the default weighted object option 3, of weight 0.4 in the prior,
    is not drawn with that probability. *)
Example weighted_slot_not_prior :
  ~ (pr (slot_is 2 1 3) (law sample_search weighted_mutator) ==
     nth 3 default_pre_prob 0)%Q.
Proof.
  assert (resolves weighted_mutator (Some default_pre_prob)) as Hprob
    by (right; split; reflexivity).
  rewrite (pr_slot_sample_search weighted_mutator (Some default_pre_prob)
             2 1 3 4 Hprob);
    try reflexivity; try (simpl; lia).
  - discriminate.
  - repeat constructor; discriminate.
  - exact weighted_mutator_representable.
Qed.

(** The laws on small objects, by enumeration of the outcomes: with the
    default prior, option 3 has weight 0.4 and is drawn with probability
    1/6. *)
Example law_weighted_small :
  Qeq (pr (slot_is 1 0 3)
          (law sample_search
               (Mutator "pre_prob" (Some default_pre_prob) 6 [2; 1])))
      (1 # 6).
Proof. vm_compute. reflexivity. Qed.

Example law_uniform_small :
  Qeq (pr (slot_is 0 1 2) (law sample_search (Mutator "even" None 3 [2; 2])))
      (1 # 3).
Proof. vm_compute. reflexivity. Qed.

(** With an empty tuple for the prior the draws are without replacement:
    a stage of two slots over three options never repeats an option. *)
Example law_empty_prior_small :
  map fst (law sample_search (Mutator "pre_prob" (Some []) 3 [2])) =
  [Ok [[0]; [1; 2]; [0]]; Ok [[0]; [2; 1]; [0]]; Ok [[0]; [2; 0]; [0]];
   Ok [[0]; [0; 2]; [0]]; Ok [[0]; [1; 0]; [0]]; Ok [[0]; [0; 1]; [0]]].
Proof. vm_compute. reflexivity. Qed.

(** ** An absent or malformed prior *)

Lemma run_comprehension_other_self (replace : bool) (items : list Z)
    (s s' : mutator) (g : rng) :
  CHOICE_NUM s = CHOICE_NUM s' ->
  run (comprehension (draw_stage replace) items) (World s g) =
  (fst (run (comprehension (draw_stage replace) items) (World s' g)),
   World s
     (np_random
        (snd (run (comprehension (draw_stage replace) items)
                  (World s' g))))).
Proof.
  intro Hn. revert g. induction items as [| item items IH]; intro g.
  - reflexivity.
  - cbn [comprehension]. rewrite !run_bind, !run_draw_stage, <- Hn.
    destruct (random_choice (CHOICE_NUM s) item replace g)
      as [[l | e] g1]; [|reflexivity].
    rewrite !run_bind, (IH g1).
    destruct (run (comprehension (draw_stage replace) items) (World s' g1))
      as [[c | e] w1]; reflexivity.
Qed.

(** C2, as the code has it. Under 'pre_prob' with the prior absent,
    [get_prob] resolves to [None] and [sample_search] takes the branch of
    the uniform policy: every call of the primitive is the two-argument
    call, and the outcome (the candidate, or the error of the primitive)
    and the generator afterwards are those of the same object under
    'even'. No error is raised for the absent prior. *)
Theorem C2_absent_prior_draws_uniformly (w : world) :
  how_to_prob (self w) = "pre_prob"%string ->
  pre_prob (self w) = None ->
  fst (run get_prob w) = Ok None /\
  every_call (fun a _ replace =>
                a = CHOICE_NUM (self w) /\ replace = true)
             sample_search (self w) /\
  fst (run sample_search w) =
  fst (run sample_search
         (World (Mutator "even" None (CHOICE_NUM (self w))
                         (sta_num (self w)))
                (np_random w))) /\
  np_random (snd (run sample_search w)) =
  np_random
    (snd (run sample_search
            (World (Mutator "even" None (CHOICE_NUM (self w))
                            (sta_num (self w)))
                   (np_random w)))).
Proof.
  destruct w as [s g]. cbn [self np_random]. intros Hhow Hpre.
  assert (resolves s None) as Hprob
    by (right; split; [exact Hhow | now symmetry]).
  assert (fst (run get_prob (World s g)) = Ok None) as Hget.
  { rewrite run_get_prob. simpl. now rewrite Hhow, Hpre. }
  split; [exact Hget | split].
  - exact (every_call_sample_search s None Hprob).
  - set (s' := Mutator "even" None (CHOICE_NUM s) (sta_num s)).
    assert (run sample_search (World s g) =
            (fst (run sample_search (World s' g)),
             World s (np_random (snd (run sample_search (World s' g))))))
      as Hsame.
    { assert (fst (run get_prob (World s' g)) = Ok None) as Hget'
        by reflexivity.
      rewrite (run_sample_search s g None Hget),
        (run_sample_search s' g None Hget').
      cbn [replace_of]. change (sta_num s') with (sta_num s).
      rewrite (run_comprehension_other_self true (sta_num s) s s' g
                 eq_refl).
      destruct (run (comprehension (draw_stage true) (sta_num s))
                    (World s' g)) as [[c | e] w1]; reflexivity. }
    rewrite Hsame. split; reflexivity.
Qed.

Lemma C2_absent_prior_draws_uniformly_witness :
  fst (run get_prob
         (World (Mutator "pre_prob" None 6 [4; 4; 4; 4; 4]) counter_rng)) =
  Ok None /\
  every_call (fun a _ replace => a = 6 /\ replace = true) sample_search
             (Mutator "pre_prob" None 6 [4; 4; 4; 4; 4]) /\
  fst (run sample_search
         (World (Mutator "pre_prob" None 6 [4; 4; 4; 4; 4]) counter_rng)) =
  fst (run sample_search
         (World (Mutator "even" None 6 [4; 4; 4; 4; 4]) counter_rng)) /\
  np_random
    (snd (run sample_search
            (World (Mutator "pre_prob" None 6 [4; 4; 4; 4; 4])
                   counter_rng))) =
  np_random
    (snd (run sample_search
            (World (Mutator "even" None 6 [4; 4; 4; 4; 4]) counter_rng))).
Proof.
  apply (C2_absent_prior_draws_uniformly
           (World (Mutator "pre_prob" None 6 [4; 4; 4; 4; 4]) counter_rng)).
  - reflexivity.
  - reflexivity.
Defined.

(** C2 as stated fails: under 'pre_prob' with the prior absent the call
    returns a candidate. *)
Lemma C2_absent_prior_returns :
  how_to_prob (Mutator "pre_prob" None 6 [4; 4; 4; 4; 4]) =
  "pre_prob"%string /\
  pre_prob (Mutator "pre_prob" None 6 [4; 4; 4; 4; 4]) = None /\
  fst (run sample_search
         (World (Mutator "pre_prob" None 6 [4; 4; 4; 4; 4]) counter_rng)) =
  Ok [[0]; [1; 0; 5; 4]; [3; 2; 1; 0]; [5; 4; 3; 2]; [1; 0; 5; 4];
      [3; 2; 1; 0]; [0]].
Proof. repeat split; vm_compute; reflexivity. Qed.

(** The prior is never checked: one that sums to 0.9 and one of the wrong
    length give the same candidate as the default one. *)
Example prior_never_validated :
  fst (run sample_search
         (World (Mutator "pre_prob" (Some short_prior) 6 [4; 4; 4; 4; 4])
                counter_rng)) =
  fst (run sample_search (World weighted_mutator counter_rng)) /\
  fst (run sample_search
         (World (Mutator "pre_prob" (Some [1%Q]) 6 [4; 4; 4; 4; 4])
                counter_rng)) =
  fst (run sample_search (World weighted_mutator counter_rng)) /\
  is_ok (fst (run sample_search (World weighted_mutator counter_rng))) =
  true.
Proof. repeat split; vm_compute; reflexivity. Qed.

(** * Further properties of the sampler *)

(** ** When a call raises *)

Lemma run_comprehension_ok_iff (replace : bool) (items : list Z)
    (s : mutator) (g : rng) :
  is_ok (fst (run (comprehension (draw_stage replace) items) (World s g)))
  = true <->
  Forall (fun item => choice_check (CHOICE_NUM s) item replace = None) items.
Proof.
  split.
  - revert g. induction items as [| item items IH]; intros g Hok.
    + constructor.
    + cbn [comprehension] in Hok. rewrite run_bind, run_draw_stage in Hok.
      destruct (choice_check (CHOICE_NUM s) item replace) as [e|] eqn:Hc.
      * rewrite (random_choice_rejected _ _ _ g e Hc) in Hok. discriminate.
      * constructor; [exact Hc|].
        destruct (random_choice_accepted _ _ _ g Hc) as (l & g1 & Hl & _).
        rewrite Hl, run_bind in Hok. apply (IH g1).
        destruct (run (comprehension (draw_stage replace) items)
                      (World s g1)) as [[c | e] w1];
          [reflexivity | discriminate].
  - intro Hall.
    destruct (run_comprehension_accepted replace items s g Hall)
      as (c & g' & -> & _).
    reflexivity.
Qed.

(** X2. Under a recognized policy [sample_search] raises when a stage size
    cannot be drawn: with replacement (policy 'even', or a prior that is
    absent or a non-empty tuple) a negative size, or a size other than 0
    with a [CHOICE_NUM] of 0 or less; without replacement (the prior is
    the empty tuple) a negative size or one above [CHOICE_NUM]. *)
Theorem sample_search_raises_on_undrawable_size (s : mutator) (g : rng)
    (prob : option (list Q)) :
  resolves s prob ->
  Exists (fun n => if replace_of prob
                   then n < 0 \/ (n <> 0 /\ CHOICE_NUM s <= 0)
                   else n < 0 \/ CHOICE_NUM s < n)
         (sta_num s) ->
  exists e, fst (run sample_search (World s g)) = Raise e.
Proof.
  intros Hprob Hbad.
  assert (fst (run get_prob (World s g)) = Ok prob) as Hget.
  { rewrite run_get_prob. simpl.
    destruct Hprob as [[Hhow ->] | [Hhow ->]]; rewrite Hhow; reflexivity. }
  rewrite (run_sample_search s g prob Hget).
  pose proof (run_comprehension_ok_iff (replace_of prob) (sta_num s) s g)
    as [Hok _].
  destruct (run (comprehension (draw_stage (replace_of prob)) (sta_num s))
                (World s g)) as [[c | e] w0];
    [|exists e; reflexivity].
  exfalso. specialize (Hok eq_refl).
  apply Exists_exists in Hbad. destruct Hbad as (n & Hin & Hn).
  rewrite Forall_forall in Hok. specialize (Hok n Hin).
  apply choice_check_None_inv in Hok.
  destruct Hok as (H0 & Hsa & Hpop).
  destruct (replace_of prob); [lia|]. specialize (Hpop eq_refl). lia.
Qed.

Lemma sample_search_raises_on_undrawable_size_witness :
  exists e,
    fst (run sample_search
           (World (Mutator "pre_prob" (Some []) 6 [4; 7]) counter_rng)) =
    Raise e.
Proof.
  apply (sample_search_raises_on_undrawable_size
           (Mutator "pre_prob" (Some []) 6 [4; 7]) counter_rng (Some [])).
  - right. split; reflexivity.
  - right. left. right. simpl. lia.
Defined.

(** X3. With no interior stage ([sta_num] empty) and a recognized policy,
    [sample_search] makes no draw: it returns [[[0], [0]]] and leaves the
    generator as it was, whatever [CHOICE_NUM] and the prior are. *)
Theorem sample_search_no_stage (s : mutator) (g : rng) :
  recognized (how_to_prob s) -> sta_num s = [] ->
  run sample_search (World s g) = (Ok [[0]; [0]], World s g).
Proof.
  intros Hrec Hnil.
  rewrite (run_sample_search s g _ (get_prob_recognized s g Hrec)), Hnil.
  reflexivity.
Qed.

Lemma sample_search_no_stage_witness :
  run sample_search (World (Mutator "pre_prob" (Some short_prior) 0 [])
                           counter_rng) =
  (Ok [[0]; [0]],
   World (Mutator "pre_prob" (Some short_prior) 0 []) counter_rng).
Proof.
  apply sample_search_no_stage; [right|]; reflexivity.
Defined.

(** ** Draws without replacement *)

Lemma nth_error_update (x : list Z) (i k : nat) (v : Z) :
  nth_error (update x i v) k =
  if Nat.eqb k i
  then match nth_error x i with Some _ => Some v | None => None end
  else nth_error x k.
Proof.
  revert i k; induction x as [| h t IH]; intros i k.
  - destruct i, k; simpl; try reflexivity.
    now destruct (Nat.eqb k i).
  - destruct i as [| i], k as [| k]; simpl; try reflexivity.
    apply IH.
Qed.

(** The transposition of [i] and [j]. *)
Lemma nth_error_swap (x : list Z) (i j k : nat) :
  (i < List.length x)%nat -> (j < List.length x)%nat ->
  nth_error (swap x i j) k =
  nth_error x (if Nat.eqb k j then i else if Nat.eqb k i then j else k).
Proof.
  intros Hi Hj. unfold swap.
  destruct (nth_error x i) as [xi|] eqn:Ei;
    [|apply nth_error_None in Ei; lia].
  destruct (nth_error x j) as [xj|] eqn:Ej;
    [|apply nth_error_None in Ej; lia].
  rewrite nth_error_update.
  destruct (Nat.eqb_spec k j) as [-> | Hkj].
  - rewrite nth_error_update.
    destruct (Nat.eqb_spec j i) as [-> | Hji].
    + now rewrite Ei.
    + now rewrite Ej.
  - rewrite nth_error_update.
    destruct (Nat.eqb_spec k i) as [-> | Hki].
    + now rewrite Ei.
    + reflexivity.
Qed.

Lemma swap_NoDup (x : list Z) (i j : nat) : NoDup x -> NoDup (swap x i j).
Proof.
  intro Hx.
  destruct (Nat.lt_ge_cases i (List.length x)) as [Hi | Hi].
  2:{ unfold swap. apply nth_error_None in Hi. now rewrite Hi. }
  destruct (Nat.lt_ge_cases j (List.length x)) as [Hj | Hj].
  2:{ unfold swap. apply nth_error_None in Hj. rewrite Hj.
      now destruct (nth_error x i). }
  rewrite NoDup_nth_error in Hx |- *.
  intros a b Ha Hab. rewrite swap_length in Ha.
  rewrite !nth_error_swap in Hab by assumption.
  apply Hx in Hab.
  - destruct (Nat.eqb_spec a j), (Nat.eqb_spec b j),
      (Nat.eqb_spec a i), (Nat.eqb_spec b i); lia.
  - destruct (Nat.eqb_spec a j), (Nat.eqb_spec a i); lia.
Qed.

Lemma shuffle_from_NoDup (i : nat) (x : list Z) (g : rng) :
  NoDup x -> NoDup (fst (shuffle_from i x g)).
Proof.
  revert x g; induction i as [| i IH]; intros x g Hx; cbn [shuffle_from].
  - exact Hx.
  - destruct (random_interval (Z.of_nat (S i)) g) as [j g'].
    apply IH. now apply swap_NoDup.
Qed.

Lemma arange_NoDup (n : nat) : NoDup (arange n).
Proof.
  unfold arange. generalize O as a.
  induction n as [| n IH]; intro a; simpl; constructor.
  - intro Hin. apply in_map_iff in Hin. destruct Hin as (b & Hb & Hin).
    apply in_seq in Hin. lia.
  - apply IH.
Qed.

Lemma firstn_NoDup (n : nat) (l : list Z) : NoDup l -> NoDup (firstn n l).
Proof.
  intro H. rewrite <- (firstn_skipn n l) in H.
  eapply NoDup_app_remove_r. exact H.
Qed.

Lemma random_choice_without_NoDup (a size : Z) (g : rng) (l : list Z)
    (g' : rng) :
  random_choice a size false g = (Ok l, g') -> NoDup l.
Proof.
  unfold random_choice, permutation. intro H.
  destruct (choice_check a size false); [discriminate|].
  pose proof (shuffle_from_NoDup (Z.to_nat a - 1) (arange (Z.to_nat a)) g
                (arange_NoDup _)) as Hperm.
  destruct (shuffle_from (Z.to_nat a - 1) (arange (Z.to_nat a)) g)
    as [perm g1].
  injection H as <- _. now apply firstn_NoDup.
Qed.

Lemma run_comprehension_without_NoDup (items : list Z) (s : mutator)
    (g : rng) (c : candidate) (w' : world) :
  run (comprehension (draw_stage false) items) (World s g) = (Ok c, w') ->
  Forall (@NoDup Z) c.
Proof.
  revert g c w'.
  induction items as [| item items IH]; intros g c w' Hrun.
  - simpl in Hrun. injection Hrun as <- _. constructor.
  - cbn [comprehension] in Hrun. rewrite run_bind, run_draw_stage in Hrun.
    destruct (random_choice (CHOICE_NUM s) item false g)
      as [[l | e] g1] eqn:Hl; [|discriminate].
    rewrite run_bind in Hrun.
    destruct (run (comprehension (draw_stage false) items) (World s g1))
      as [[c1 | e] w1] eqn:Hrest; [|discriminate].
    simpl in Hrun. injection Hrun as <- _.
    constructor.
    + eapply random_choice_without_NoDup; exact Hl.
    + eapply IH; exact Hrest.
Qed.

(** X4. Under 'pre_prob' with the empty tuple for the prior, the prior is
    a false [replace]: no stage of a candidate that [sample_search] returns
    holds an option twice. *)
Theorem empty_prior_stages_have_no_repeat (w : world) (c : candidate)
    (w' : world) :
  how_to_prob (self w) = "pre_prob"%string ->
  pre_prob (self w) = Some [] ->
  run sample_search w = (Ok c, w') ->
  Forall (@NoDup Z) c.
Proof.
  destruct w as [s g]. simpl self. intros Hhow Hpre Hrun.
  assert (fst (run get_prob (World s g)) = Ok (Some [])) as Hget.
  { rewrite run_get_prob. simpl. now rewrite Hhow, Hpre. }
  rewrite (run_sample_search s g _ Hget) in Hrun. cbn [replace_of] in Hrun.
  change (tuple_bool (@nil Q)) with false in Hrun.
  destruct (run (comprehension (draw_stage false) (sta_num s)) (World s g))
    as [[c0 | e] w0] eqn:Hstages; [|discriminate].
  injection Hrun as <- _.
  apply run_comprehension_without_NoDup in Hstages.
  constructor.
  - repeat constructor. intros [].
  - apply Forall_app. split; [exact Hstages|].
    repeat constructor. intros [].
Qed.

Lemma empty_prior_stages_have_no_repeat_witness :
  Forall (@NoDup Z) [[0]; [0; 4; 5; 3]; [1; 0; 3; 4; 5; 2]; []; [0]].
Proof.
  apply (empty_prior_stages_have_no_repeat
           (World (Mutator "pre_prob" (Some []) 6 [4; 6; 0]) counter_rng) _
           (snd (run sample_search
                   (World (Mutator "pre_prob" (Some []) 6 [4; 6; 0])
                          counter_rng)))).
  - reflexivity.
  - reflexivity.
  - vm_compute. reflexivity.
Defined.

(** * The optimizer of the driver *)

Import PyStr Optimizer.

(** ** [add_weight_decay_supernet] *)

(** The parameters the loop puts in each list, in the order of the model. *)
Lemma fold_place (skip_list : list string) (model : list named_parameter)
    (b : buckets) :
  let b' := fold_left (place skip_list) model b in
  decay b' =
    decay b ++
    filter (fun p => requires_grad p && negb (exempt skip_list p)
                     && negb (is_meta p))%bool model /\
  no_decay b' =
    no_decay b ++
    filter (fun p => requires_grad p && exempt skip_list p
                     && negb (is_meta p))%bool model /\
  meta_layer_no_decay b' =
    meta_layer_no_decay b ++
    filter (fun p => requires_grad p && exempt skip_list p
                     && is_meta p)%bool model /\
  meta_layer_decay b' =
    meta_layer_decay b ++
    filter (fun p => requires_grad p && negb (exempt skip_list p)
                     && is_meta p)%bool model.
Proof.
  revert b; induction model as [| p model IH]; intro b; cbn [fold_left].
  - simpl. now rewrite !app_nil_r.
  - specialize (IH (place skip_list b p)). cbv zeta in IH |- *.
    destruct IH as (H1 & H2 & H3 & H4). rewrite H1, H2, H3, H4.
    unfold place. cbn [filter].
    destruct (requires_grad p), (exempt skip_list p), (is_meta p);
      cbn [negb andb decay no_decay meta_layer_no_decay meta_layer_decay];
      rewrite <- ?app_assoc; repeat split; reflexivity.
Qed.

Lemma four_way_partition {A} (f c1 c2 : A -> bool) (l : list A) :
  Permutation
    (filter (fun p => f p && c1 p && negb (c2 p))%bool l ++
     filter (fun p => f p && negb (c1 p) && negb (c2 p))%bool l ++
     filter (fun p => f p && c1 p && c2 p)%bool l ++
     filter (fun p => f p && negb (c1 p) && c2 p)%bool l)
    (filter f l).
Proof.
  induction l as [| p l IH]; [constructor|].
  cbn [filter].
  set (l1 := filter (fun p => f p && c1 p && negb (c2 p))%bool l) in *.
  set (l2 := filter (fun p => f p && negb (c1 p) && negb (c2 p))%bool l)
    in *.
  set (l3 := filter (fun p => f p && c1 p && c2 p)%bool l) in *.
  set (l4 := filter (fun p => f p && negb (c1 p) && c2 p)%bool l) in *.
  destruct (f p), (c1 p), (c2 p); cbn [negb andb]; try exact IH.
  - replace (l1 ++ l2 ++ (p :: l3) ++ l4)
      with ((l1 ++ l2) ++ p :: (l3 ++ l4))
      by (now rewrite <- app_assoc).
    apply Permutation_sym, Permutation_cons_app, Permutation_sym.
    now rewrite <- app_assoc.
  - simpl. now constructor.
  - replace (l1 ++ l2 ++ l3 ++ p :: l4)
      with ((l1 ++ l2 ++ l3) ++ p :: l4)
      by (now rewrite <- !app_assoc).
    apply Permutation_sym, Permutation_cons_app, Permutation_sym.
    now rewrite <- !app_assoc.
  - apply Permutation_sym, Permutation_cons_app, Permutation_sym.
    exact IH.
Qed.

(** X5. The four groups of [add_weight_decay_supernet] hold every
    parameter that requires a gradient exactly once and no frozen
    parameter: together they are a rearrangement of the trainable
    parameters of the model. *)
Theorem groups_partition_trainable (model : list named_parameter)
    (args : opt_args) (wd : Q) (skip_list : list string) :
  Permutation
    (List.concat
       (map params (add_weight_decay_supernet model args wd skip_list)))
    (filter requires_grad model).
Proof.
  unfold add_weight_decay_supernet. cbv zeta. cbn [map List.concat params].
  destruct (fold_place skip_list model (Buckets [] [] [] []))
    as (H1 & H2 & H3 & H4).
  cbv zeta in H1, H2, H3, H4. rewrite H1, H2, H3, H4.
  cbn [decay no_decay meta_layer_no_decay meta_layer_decay app].
  rewrite app_nil_r.
  apply (four_way_partition requires_grad (exempt skip_list) is_meta).
Qed.

Lemma group_of_parameter (model : list named_parameter)
    (args : opt_args) (wd : Q) (skip_list : list string)
    (grp : param_group) (p : named_parameter) :
  In grp (add_weight_decay_supernet model args wd skip_list) ->
  In p (params grp) ->
  In p model /\ requires_grad p = true /\
  group_lr grp = (if is_meta p then meta_lr args else lr args) /\
  group_weight_decay grp =
    (if (exempt skip_list p || is_meta p)%bool then 0%Q else wd).
Proof.
  unfold add_weight_decay_supernet. cbv zeta.
  destruct (fold_place skip_list model (Buckets [] [] [] []))
    as (H1 & H2 & H3 & H4).
  cbv zeta in H1, H2, H3, H4. rewrite H1, H2, H3, H4.
  cbn [decay no_decay meta_layer_no_decay meta_layer_decay app].
  intros [<- | [<- | [<- | [<- | []]]]] Hp; cbn [params] in Hp;
    apply filter_In in Hp; destruct Hp as [Hin Hp];
    apply andb_prop in Hp; destruct Hp as [Hp Hmeta];
    apply andb_prop in Hp; destruct Hp as [Hgrad Hex];
    rewrite ?negb_true_iff in *;
    cbn [group_lr group_weight_decay]; rewrite Hex, Hmeta;
    repeat split; assumption || reflexivity.
Qed.

(** X6. In the groups of [add_weight_decay_supernet] a parameter of a meta
    layer has the learning rate [meta_lr] and any other one [lr]; the
    weight decay of a group is the given one only for parameters that are
    neither one-dimensional, nor a bias, nor on the skip list, nor of a
    meta layer, and 0 for all others. *)
Theorem group_hyperparameters (model : list named_parameter)
    (args : opt_args) (wd : Q) (skip_list : list string)
    (grp : param_group) (p : named_parameter) :
  In grp (add_weight_decay_supernet model args wd skip_list) ->
  In p (params grp) ->
  In p model /\ requires_grad p = true /\
  group_lr grp = (if is_meta p then meta_lr args else lr args) /\
  group_weight_decay grp =
    (if (exempt skip_list p || is_meta p)%bool then 0%Q else wd).
Proof. apply group_of_parameter. Qed.

Lemma group_hyperparameters_witness :
  In (NamedParameter "conv.bias" [16] true) sample_model /\
  true = true /\
  (1 # 100)%Q = (1 # 100)%Q /\
  0%Q = 0%Q.
Proof.
  apply (group_hyperparameters sample_model sample_args (1 # 10000) []
           (ParamGroup [NamedParameter "conv.bias" [16] true;
                        NamedParameter "bn.weight" [16] true]
                       0 (1 # 100))
           (NamedParameter "conv.bias" [16] true)).
  - left. reflexivity.
  - left. reflexivity.
Defined.

(** ** [create_optimizer_supernet] *)

Lemma lower_char_idempotent (c : ascii) :
  lower_char (lower_char c) = lower_char c.
Proof. destruct c as [[] [] [] [] [] [] [] []]; reflexivity. Qed.

Lemma lower_idempotent (s : string) : lower (lower s) = lower s.
Proof.
  induction s as [| c s IH]; simpl; [reflexivity|].
  now rewrite lower_char_idempotent, IH.
Qed.

(** X7. The optimizer name is read without regard to case: the outcome
    for a name is the outcome for the name in lower case. *)
Theorem create_optimizer_ignores_case (rt : runtime) (args : opt_args)
    (model : list named_parameter) (filter_bias_and_bn : bool) :
  create_optimizer_supernet rt args model filter_bias_and_bn =
  create_optimizer_supernet rt
    (OptArgs (lower (opt args)) (weight_decay args) (lr args)
             (meta_lr args) (momentum args) (opt_eps args))
    model filter_bias_and_bn.
Proof.
  unfold create_optimizer_supernet, select, add_weight_decay_supernet.
  cbn [opt weight_decay lr meta_lr momentum opt_eps].
  now rewrite lower_idempotent.
Qed.

Lemma select_inv (rt : runtime) (args : opt_args) (over : param_source)
    (wd : Q) (name : string) (o : optimizer) :
  select rt args over wd name = inr o ->
  ((name = "sgd" \/ name = "nesterov")%string /\
   o = SGD over (momentum args) wd true) \/
  (name = "momentum"%string /\ o = SGD over (momentum args) wd false) \/
  (name = "adam"%string /\ o = Adam over wd (opt_eps args)).
Proof.
  unfold select. intro H.
  destruct (String.eqb_spec name "sgd") as [-> | Hsgd].
  { left. split; [now left | now injection H]. }
  destruct (String.eqb_spec name "nesterov") as [-> | Hnes].
  { left. split; [now right | now injection H]. }
  cbn [orb] in H.
  destruct (String.eqb_spec name "momentum") as [-> | Hmom].
  { right; left. split; [reflexivity | now injection H]. }
  destruct (String.eqb_spec name "adam") as [-> | Hadam].
  { right; right. split; [reflexivity | now injection H]. }
  destruct (debug rt); discriminate.
Qed.

(** What [create_optimizer_supernet] hands to the dispatch when it gets
    there. *)
Lemma create_optimizer_inv (rt : runtime) (args : opt_args)
    (model : list named_parameter) (filter_bias_and_bn : bool)
    (o : optimizer) :
  create_optimizer_supernet rt args model filter_bias_and_bn = inr o ->
  exists wd,
    select rt args
      (if (float_bool wd && filter_bias_and_bn)%bool
       then Groups (add_weight_decay_supernet model args wd [])
       else ModelParameters model)
      (if (float_bool wd && filter_bias_and_bn)%bool then 0%Q else wd)
      (last_component "_" (lower (opt args))) = inr o.
Proof.
  unfold create_optimizer_supernet. cbv zeta. intro H.
  destruct (scales_decay (lower (opt args)) && Qeq_bool (lr args) 0)%bool;
    [discriminate|].
  match type of H with
  | (if ?c then _ else _) = _ => destruct c; [discriminate|]
  end.
  eexists. exact H.
Qed.

(** X8. When [create_optimizer_supernet] builds an optimizer, the text
    after the last underscore of the lower-case name decides which: SGD
    with Nesterov momentum for 'sgd' and 'nesterov', plain SGD for
    'momentum', Adam for 'adam'; for every other name no optimizer is
    built. *)
Theorem optimizer_follows_last_component (rt : runtime) (args : opt_args)
    (model : list named_parameter) (filter_bias_and_bn : bool)
    (o : optimizer) :
  create_optimizer_supernet rt args model filter_bias_and_bn = inr o ->
  match o with
  | SGD _ m _ true =>
      (last_component "_" (lower (opt args)) = "sgd" \/
       last_component "_" (lower (opt args)) = "nesterov")%string /\
      m = momentum args
  | SGD _ m _ false =>
      last_component "_" (lower (opt args)) = "momentum"%string /\
      m = momentum args
  | Adam _ _ eps =>
      last_component "_" (lower (opt args)) = "adam"%string /\
      eps = opt_eps args
  end.
Proof.
  intro H. apply create_optimizer_inv in H. destruct H as [wd H].
  apply select_inv in H.
  destruct H as [[Hn ->] | [[Hn ->] | [Hn ->]]]; now split.
Qed.

Lemma optimizer_follows_last_component_witness :
  (last_component "_" (lower "fused_SGD") = "sgd" \/
   last_component "_" (lower "fused_SGD") = "nesterov")%string /\
  (9 # 10)%Q = (9 # 10)%Q.
Proof.
  apply (optimizer_follows_last_component
           (Runtime true true true)
           (OptArgs "fused_SGD" (1 # 10000) (1 # 100) (1 # 100) (9 # 10)
                    (1 # 100000000))
           sample_model true
           (SGD (Groups (add_weight_decay_supernet sample_model sample_args
                           (1 # 10000) []))
                (9 # 10) 0 true)).
  reflexivity.
Defined.

(** X9. With assertions executed (no [python -O]),
    [create_optimizer_supernet] never raises the [ValueError] of its last
    line: an unsupported name fails the [assert] before it. *)
Theorem unsupported_optimizer_fails_assert (rt : runtime) (args : opt_args)
    (model : list named_parameter) (filter_bias_and_bn : bool) :
  debug rt = true ->
  create_optimizer_supernet rt args model filter_bias_and_bn <>
  inl BareValueError.
Proof.
  intros Hdebug. unfold create_optimizer_supernet, select. cbv zeta.
  rewrite Hdebug.
  repeat match goal with
         | |- (if ?c then _ else _) <> _ => destruct c
         end; discriminate.
Qed.

Lemma unsupported_optimizer_fails_assert_witness :
  create_optimizer_supernet sample_runtime
    (OptArgs "adamw" (1 # 10000) (1 # 100) (1 # 100) (9 # 10)
             (1 # 100000000))
    sample_model true <> inl BareValueError.
Proof.
  apply unsupported_optimizer_fails_assert. reflexivity.
Defined.

(** X10. The weight decay is handed over once. An optimizer built over
    parameter groups gets the keyword [weight_decay=0] and the groups
    carry a decay that is not zero; this happens only with
    [filter_bias_and_bn]. Otherwise the optimizer is built over
    [model.parameters()]. *)
Theorem weight_decay_handed_once (rt : runtime) (args : opt_args)
    (model : list named_parameter) (filter_bias_and_bn : bool)
    (o : optimizer) :
  create_optimizer_supernet rt args model filter_bias_and_bn = inr o ->
  match over_of o with
  | Groups groups =>
      default_weight_decay o = 0%Q /\ filter_bias_and_bn = true /\
      exists wd, ~ (wd == 0)%Q /\
                 groups = add_weight_decay_supernet model args wd []
  | ModelParameters ps => ps = model
  end.
Proof.
  intro H. apply create_optimizer_inv in H. destruct H as [wd H].
  apply select_inv in H.
  destruct (float_bool wd && filter_bias_and_bn)%bool eqn:Hc.
  - apply andb_prop in Hc. destruct Hc as [Hwd Hf].
    assert (~ (wd == 0)%Q) as Hne.
    { intro E. apply Qeq_bool_iff in E. unfold float_bool in Hwd.
      rewrite E in Hwd. discriminate. }
    destruct H as [[_ ->] | [[_ ->] | [_ ->]]];
      cbn [over_of default_weight_decay]; eauto.
  - destruct H as [[_ ->] | [[_ ->] | [_ ->]]]; reflexivity.
Qed.

Lemma weight_decay_handed_once_witness :
  0%Q = 0%Q /\ true = true /\
  exists wd, ~ (wd == 0)%Q /\
             add_weight_decay_supernet sample_model sample_args
               (1 # 10000) [] =
             add_weight_decay_supernet sample_model sample_args wd [].
Proof.
  apply (weight_decay_handed_once sample_runtime sample_args sample_model
           true
           (SGD (Groups (add_weight_decay_supernet sample_model sample_args
                           (1 # 10000) []))
                (9 # 10) 0 true)).
  reflexivity.
Defined.

(** X11. With [filter_bias_and_bn], an optimizer that
    [create_optimizer_supernet] builds decays no one-dimensional parameter
    and no bias: every group that lists such a parameter has weight decay
    0, and an optimizer built over [model.parameters()] has a keyword
    [weight_decay] equal to 0. *)
Theorem biases_are_not_decayed (rt : runtime) (args : opt_args)
    (model : list named_parameter) (o : optimizer) (p : named_parameter) :
  create_optimizer_supernet rt args model true = inr o ->
  exempt [] p = true ->
  match over_of o with
  | Groups groups =>
      forall grp, In grp groups -> In p (params grp) ->
                  group_weight_decay grp = 0%Q
  | ModelParameters _ => (default_weight_decay o == 0)%Q
  end.
Proof.
  intros H Hex. apply create_optimizer_inv in H. destruct H as [wd H].
  apply select_inv in H. rewrite andb_true_r in H.
  destruct (float_bool wd) eqn:Hwd.
  - assert (forall grp, In grp (add_weight_decay_supernet model args wd [])
                        -> In p (params grp) ->
                        group_weight_decay grp = 0%Q) as Hgroups.
    { intros grp Hg Hp.
      destruct (group_of_parameter model args wd [] grp p Hg Hp)
        as (_ & _ & _ & Hd).
      now rewrite Hex in Hd. }
    destruct H as [[_ ->] | [[_ ->] | [_ ->]]]; exact Hgroups.
  - assert (wd == 0)%Q as Hzero.
    { unfold float_bool in Hwd. apply negb_false_iff in Hwd.
      now apply Qeq_bool_iff. }
    destruct H as [[_ ->] | [[_ ->] | [_ ->]]]; exact Hzero.
Qed.

Lemma biases_are_not_decayed_witness :
  group_weight_decay
    (ParamGroup [NamedParameter "conv.bias" [16] true;
                 NamedParameter "bn.weight" [16] true]
                0 (1 # 100)) = 0%Q.
Proof.
  apply (biases_are_not_decayed sample_runtime sample_args sample_model
           (SGD (Groups (add_weight_decay_supernet sample_model sample_args
                           (1 # 10000) []))
                (9 # 10) 0 true)
           (NamedParameter "conv.bias" [16] true)
           eq_refl eq_refl
           (ParamGroup [NamedParameter "conv.bias" [16] true;
                        NamedParameter "bn.weight" [16] true]
                       0 (1 # 100))).
  - left. reflexivity.
  - left. reflexivity.
Defined.

(** * More on the dataset stage *)

(** X12. Without [--tiny] the stage goes on to load only behind both
    checks: [--data] was given, something exists at its [train] path, its
    [val] path is a directory, and what is loaded is the dataset at [val],
    in batches of four times [--batch-size]. *)
Theorem dataset_loaded_behind_checks (fs : filesystem) (a : args) :
  tiny a = false ->
  snd (dataset_stage fs a) = Proceed ->
  exists d,
    data a = Some d /\
    os_path_exists fs (os_path_join d "train") = true /\
    os_path_isdir fs (os_path_join d "val") = true /\
    fst (dataset_stage fs a) =
    [LoadDataset (os_path_join d "val"); CreateLoader (4 * batch_size a)].
Proof.
  intros Htiny. unfold dataset_stage. rewrite Htiny.
  destruct (data a) as [d|]; [|discriminate].
  destruct (os_path_exists fs (os_path_join d "train")) eqn:Htrain;
    cbn [negb]; [|discriminate].
  destruct (os_path_isdir fs (os_path_join d "val")) eqn:Hval;
    cbn [negb]; [|discriminate].
  intros _. exists d. repeat split; assumption.
Qed.

Lemma dataset_loaded_behind_checks_witness :
  exists d,
    Some "/d"%string = Some d /\
    os_path_exists
      (fs_of [("/d/train"%string, Dir); ("/d/val"%string, Dir)])
      (os_path_join d "train") = true /\
    os_path_isdir
      (fs_of [("/d/train"%string, Dir); ("/d/val"%string, Dir)])
      (os_path_join d "val") = true /\
    [LoadDataset "/d/val"; CreateLoader 128] =
    [LoadDataset (os_path_join d "val"); CreateLoader (4 * 32)].
Proof.
  apply (dataset_loaded_behind_checks
           (fs_of [("/d/train"%string, Dir); ("/d/val"%string, Dir)])
           (Args false (Some "/d"%string) 32)); reflexivity.
Defined.
(** * The accuracy of the evaluation loop *)

Import Metrics.







(** * The architecture table *)

Import Architectures.

Lemma candidate_of_interior (n : Z) (items : list Z) (al : candidate) :
  hd_error al = Some [0] -> last (tl al) [] = [0] -> tl al <> [] ->
  Forall2 (stage_ok n) items (interior al) ->
  well_shaped items al /\ in_range n al.
Proof.
  intros Hhd Hlast Hne Hint.
  destruct al as [| first rest]; [discriminate|].
  injection Hhd as ->. cbn [tl] in *. unfold interior in Hint.
  cbn [tl] in Hint.
  rewrite (app_removelast_last [] Hne), Hlast.
  split.
  - now apply (stages_well_shaped n).
  - now apply (stages_in_range n items).
Qed.

(** X15. Every architecture of the table of [main] has the form of a
    candidate of the sampler over six options: [arch_list] starts and ends
    with [[0]], its interior stages have as many entries as the stages of
    [arch_def] have layer descriptions, and every entry is an option index
    below 6. *)
Theorem table_architectures_are_candidates (model_selection : Z)
    (a : architecture) :
  select_architecture model_selection = Some a ->
  map (@List.length Z) (arch_list a) =
  map (@List.length string) (arch_def a) /\
  well_shaped (stage_sizes a) (arch_list a) /\
  in_range 6 (arch_list a).
Proof.
  unfold select_architecture. intro H.
  repeat match type of H with
         | (if ?c then _ else _) = _ => destruct c
         end;
    try discriminate; injection H as <-;
    (split; [reflexivity|]);
    apply candidate_of_interior;
    try reflexivity; try discriminate;
    repeat (constructor || split); simpl; lia.
Qed.

Lemma table_architectures_are_candidates_witness :
  map (@List.length Z) (arch_list architecture_14) =
  map (@List.length string) (arch_def architecture_14) /\
  well_shaped (stage_sizes architecture_14) (arch_list architecture_14) /\
  in_range 6 (arch_list architecture_14).
Proof.
  apply (table_architectures_are_candidates 14). reflexivity.
Defined.
